(** * universal-orm: a shallow embedding of the facade, the factory,
      the validators and the adapters' query compilers and transactions

    The JavaScript sources are embedded as Rocq functions:
    - JS values are the inductive type [value]; numbers are the integers
      (a [Z]), which is what counts, limits, offsets and ports are;
    - a call that can throw returns a [completion] (a normal [Return] or a
      [Throw] of an error object with its class name and its message);
    - methods that talk to a native driver take the driver's answers as an
      argument (a function from the call to its completion) and produce
      the trace of the driver calls they make, in order, besides their own
      completion;
    - the facade's mutable fields (the connection [Map], the factory's
      table, the objects allocated by [new]) are an explicit state. *)

From Stdlib Require Import ZArith String Ascii List Bool Lia.
From stdpp Require Import base option list strings pretty gmap.

Set Warnings "-register-all".
Local Open Scope Z_scope.

(** ** JavaScript values and errors *)

Module Js.

Inductive value : Type :=
| VUndefined
| VNull
| VBool (b : bool)
| VNum (n : Z)
| VStr (s : string)
| VArr (items : list value)
| VObj (props : list (string * value)).

(** An error object: the name of the class it was constructed from and
    its [message]. *)
Record error : Type := mkError { name : string; message : string }.

Definition Error (msg : string) : error := mkError "Error" msg.
Definition TypeError (msg : string) : error := mkError "TypeError" msg.
Definition DatabaseError (msg : string) : error := mkError "DatabaseError" msg.

Inductive completion (A : Type) : Type :=
| Return (a : A)
| Throw (e : error).
Arguments Return {A} a.
Arguments Throw {A} e.

#[global] Instance completion_ret : MRet completion := @Return.
#[global] Instance completion_fmap : FMap completion :=
  fun A B f m => match m with Return a => Return (f a) | Throw e => Throw e end.
#[global] Instance completion_bind : MBind completion :=
  fun A B f m => match m with Return a => f a | Throw e => Throw e end.

(** [try { m } catch (error) { h error }] *)
Definition try_catch {A} (m : completion A) (h : error -> completion A)
  : completion A :=
  match m with Return a => Return a | Throw e => h e end.

(** [!v]: the falsy values are undefined, null, false, 0 and the empty
    string. *)
Definition truthy (v : value) : bool :=
  match v with
  | VUndefined | VNull => false
  | VBool b => b
  | VNum n => negb (n =? 0)
  | VStr s => negb (String.eqb s "")
  | VArr _ | VObj _ => true
  end.

(** [typeof v] *)
Definition typeof (v : value) : string :=
  match v with
  | VUndefined => "undefined"
  | VNull | VArr _ | VObj _ => "object"
  | VBool _ => "boolean"
  | VNum _ => "number"
  | VStr _ => "string"
  end.

Definition Array_isArray (v : value) : bool :=
  match v with VArr _ => true | _ => false end.

(** The string a value becomes inside a template literal. *)
Fixpoint ToString (v : value) : string :=
  match v with
  | VUndefined => "undefined"
  | VNull => "null"
  | VBool true => "true"
  | VBool false => "false"
  | VNum n => pretty n
  | VStr s => s
  | VArr items =>
      String.concat ","
        (List.map (fun x => match x with
                            | VUndefined | VNull => ""
                            | _ => ToString x
                            end) items)
  | VObj _ => "[object Object]"
  end.

(** [o[k]] on an object built by the program: its own property, or
    undefined. *)
Fixpoint assoc {A} (k : string) (l : list (string * A)) : option A :=
  match l with
  | [] => None
  | (k', a) :: l' => if String.eqb k k' then Some a else assoc k l'
  end.

Definition get (o : value) (k : string) : value :=
  match o with
  | VObj props => default VUndefined (assoc k props)
  | _ => VUndefined
  end.

(** [o[k] = v] on an object: an existing property keeps its place. *)
Fixpoint assoc_set {A} (k : string) (a : A) (l : list (string * A))
  : list (string * A) :=
  match l with
  | [] => [(k, a)]
  | (k', a') :: l' =>
      if String.eqb k k' then (k, a) :: l' else (k', a') :: assoc_set k a l'
  end.

(** [Object.entries(v)] *)
Fixpoint indexed {A} (i : nat) (l : list A) : list (string * A) :=
  match l with
  | [] => []
  | a :: l' => (pretty i, a) :: indexed (S i) l'
  end.

Definition chars (s : string) : list value :=
  List.map (fun c => VStr (String c EmptyString)) (list_ascii_of_string s).

Definition Object_entries (v : value) : completion (list (string * value)) :=
  match v with
  | VUndefined | VNull =>
      Throw (TypeError "Cannot convert undefined or null to object")
  | VBool _ | VNum _ => Return []
  | VStr s => Return (indexed 0 (chars s))
  | VArr items => Return (indexed 0 items)
  | VObj props => Return props
  end.

(** [s.toLowerCase()] on the ASCII letters. *)
Definition lower_ascii (c : ascii) : ascii :=
  let n := nat_of_ascii c in
  if (Nat.leb 65 n && Nat.leb n 90)%bool then ascii_of_nat (n + 32) else c.

Fixpoint toLowerCase (s : string) : string :=
  match s with
  | EmptyString => EmptyString
  | String c s' => String (lower_ascii c) (toLowerCase s')
  end.

(** [s.includes(t)] *)
Fixpoint includes (s t : string) : bool :=
  String.prefix t s ||
  match s with
  | EmptyString => false
  | String _ s' => includes s' t
  end.

(** A promise, by what becomes of it: the time it settles at and its
    completion ([Throw] is a rejection). *)
Record promise (A : Type) : Type := mkPromise {
  settled_at : nat;
  outcome : completion A
}.
Arguments mkPromise {A} _ _.
Arguments settled_at {A} _.
Arguments outcome {A} _.

(** The first of the promises to reject: the earliest, and among those of
    one time the first in the list. *)
Fixpoint first_rejection {A} (ps : list (promise A)) : option (nat * error) :=
  match ps with
  | [] => None
  | p :: ps' =>
      match outcome p, first_rejection ps' with
      | Return _, later => later
      | Throw e, None => Some (settled_at p, e)
      | Throw e, Some (t, e') =>
          if Nat.ltb t (settled_at p) then Some (t, e')
          else Some (settled_at p, e)
      end
  end.

Fixpoint fulfilled {A} (ps : list (promise A)) : list A :=
  match ps with
  | [] => []
  | p :: ps' =>
      match outcome p with
      | Return a => a :: fulfilled ps'
      | Throw _ => fulfilled ps'
      end
  end.

Definition latest {A} (ps : list (promise A)) : nat :=
  foldr Nat.max 0%nat (List.map settled_at ps).

(** [Promise.all(ps)]: rejects as soon as one of [ps] rejects, with its
    reason; is fulfilled when all of them are. *)
Definition Promise_all {A} (ps : list (promise A)) : promise (list A) :=
  match first_rejection ps with
  | Some (t, e) => mkPromise t (Throw e)
  | None => mkPromise (latest ps) (Return (fulfilled ps))
  end.

End Js.
Import Js.

(** ** utils/validators: [ConfigValidator.validate] *)

Module ConfigValidator.

(** The table of required fields, per backend type. *)
Definition requiredFields : list (string * list string) :=
  [ ("postgres", ["host"; "port"; "database"; "user"; "password"]);
    ("mongodb", ["uri"; "database"]);
    ("redis", ["host"; "port"]);
    ("cassandra", ["contactPoints"; "localDataCenter"; "keyspace"]);
    ("dynamodb", ["region"]);
    ("elasticsearch", ["node"]);
    ("neo4j", ["uri"; "user"; "password"]);
    ("influxdb", ["url"; "token"; "org"; "bucket"]);
    ("arango", ["url"; "database"; "username"; "password"]);
    ("orientdb", ["host"; "port"; "username"; "password"; "database"]);
    ("timescale", ["host"; "port"; "database"; "user"; "password"]);
    ("cockroachdb", ["host"; "port"; "database"; "user"; "password"]) ].

(** The table is an object literal: besides its own keys, a lookup finds
    what it inherits from [Object.prototype]. Of those names only these two
    are their own lower case; what they name cannot be iterated. *)
Definition inherited : list string := ["constructor"; "__proto__"].

Definition is_inherited (k : string) : bool :=
  existsb (String.eqb k) inherited.

(** [for (const field of fields) if (!config[field]) throw ...] *)
Fixpoint check_fields (config : value) (fields : list string)
  : completion unit :=
  match fields with
  | [] => Return tt
  | field :: rest =>
      if negb (truthy (get config field))
      then Throw (Error ("Missing required field: " +:+ field))
      else check_fields config rest
  end.

Definition validate (type : string) (config : value) : completion unit :=
  if String.eqb type ""
  then Throw (Error "Database type must be a non-empty string")
  else if negb (truthy config) || negb (String.eqb (typeof config) "object")
  then Throw (Error "Configuration must be an object")
  else
    match assoc (toLowerCase type) requiredFields with
    | Some fields => check_fields config fields
    | None =>
        if is_inherited (toLowerCase type)
        then Throw (TypeError "fields is not iterable")
        else Return tt
    end.

(** The required fields that a config lacks, in the table's order. *)
Definition missing (config : value) (fields : list string) : list string :=
  List.filter (fun field => negb (truthy (get config field))) fields.

End ConfigValidator.

(** ** factory/DatabaseFactory *)

Module DatabaseFactory.

(** The adapter classes: the twelve built in, and the classes of the
    caller, told apart by a name. *)
Inductive ctor : Type :=
| ArangoAdapter | CassandraAdapter | CockroachDBAdapter | DynamoDBAdapter
| ElasticsearchAdapter | InfluxDBAdapter | MongoAdapter | Neo4jAdapter
| OrientDBAdapter | PostgresAdapter | RedisAdapter | TimescaleAdapter
| Custom (id : string).

(** An adapter object, as its constructor leaves it: its class and the
    config it was given. *)
Record instance : Type := mkInstance { class : ctor; config : value }.

(** The objects allocated so far; a reference is an index, so two
    references are the same object exactly when they are equal. *)
Definition heap : Type := list instance.
Definition ref : Type := nat.

Definition new (AdapterClass : ctor) (cfg : value) (h : heap) : ref * heap :=
  (Datatypes.length h, h ++ [mkInstance AdapterClass cfg]).

Definition deref (h : heap) (r : ref) : option instance := nth_error h r.

(** [this.adapters] after the constructor. *)
Definition adapters0 : gmap string ctor :=
  list_to_map
    [ ("arango", ArangoAdapter); ("cassandra", CassandraAdapter);
      ("cockroachdb", CockroachDBAdapter); ("dynamodb", DynamoDBAdapter);
      ("elasticsearch", ElasticsearchAdapter); ("influxdb", InfluxDBAdapter);
      ("mongodb", MongoAdapter); ("neo4j", Neo4jAdapter);
      ("orientdb", OrientDBAdapter); ("postgres", PostgresAdapter);
      ("redis", RedisAdapter); ("timescale", TimescaleAdapter) ].

(** The table is read by its own keys. What an object inherits is outside
    this model: the names [constructor] and [__proto__], which [validate]
    refuses before [connect] asks the factory, and, once [addAdapter] has
    been called under the name [__proto__], the members of that class. *)
Definition createDatabase (adapters : gmap string ctor)
    (type : string) (cfg : value) (h : heap) : completion ref * heap :=
  match adapters !! toLowerCase type with
  | None => (Throw (Error ("Unsupported database type: " +:+ type)), h)
  | Some AdapterClass =>
      let '(r, h') := new AdapterClass cfg h in (Return r, h')
  end.

(** [type] is a string and [AdapterClass] a constructor by their declared
    types, which leaves the empty name as the one rejected argument.
    Under the name [__proto__] the assignment sets the prototype of the
    table, and a lookup of [__proto__] reads it back: the entry under that
    key stands for it, and a table without the key has the prototype it
    was made with. *)
Definition addAdapter (adapters : gmap string ctor)
    (type : string) (AdapterClass : ctor)
  : completion (gmap string ctor) :=
  if String.eqb type ""
  then Throw (Error "Database type must be a non-empty string")
  else Return (<[toLowerCase type := AdapterClass]> adapters).

End DatabaseFactory.

(** ** index: the [UniversalORM] facade *)

Module UniversalORM.
Import ConfigValidator DatabaseFactory.

(** [this.connections] is a [Map]: it keeps its keys in insertion order.
    [Map_get] answers [has] and [get] at once. *)
Definition Map_get {A} (k : string) (m : list (string * A)) : option A :=
  assoc k m.
Definition Map_set {A} (k : string) (a : A) (m : list (string * A))
  : list (string * A) :=
  assoc_set k a m.
Definition Map_values {A} (m : list (string * A)) : list A := m.*2.

Record orm : Type := mkOrm {
  connections : list (string * ref);
  factory : gmap string ctor;
  objects : heap
}.

(** [new UniversalORM()] *)
Definition init : orm := mkOrm [] adapters0 [].

(** [a || b] *)
Definition or_else (a b : value) : value := if truthy a then a else b.

(** index.js: [`${type}-${config.database}`] *)
Definition connectionKey (type : string) (config : value) : string :=
  type +:+ "-" +:+ ToString (get config "database").

(** index.ts: [`${type}-${config.database || config.uri || config.host}`] *)
Definition connectionKey_ts (type : string) (config : value) : string :=
  type +:+ "-" +:+
  ToString (or_else (or_else (get config "database") (get config "uri"))
                    (get config "host")).

Definition connect_with (key : string -> value -> string)
    (type : string) (config : value) (o : orm) : completion ref * orm :=
  let catch (error : error) : completion ref :=
    Throw (DatabaseError ("Connection failed: " +:+ message error)) in
  match validate type config with
  | Throw error => (catch error, o)
  | Return _ =>
      let connectionKey := key type config in
      match Map_get connectionKey (connections o) with
      | Some connection => (Return connection, o)
      | None =>
          match createDatabase (factory o) type config (objects o) with
          | (Throw error, h) => (catch error, mkOrm (connections o) (factory o) h)
          | (Return connection, h) =>
              (Return connection,
               mkOrm (Map_set connectionKey connection (connections o))
                     (factory o) h)
          end
      end
  end.

Definition connect := connect_with connectionKey.
Definition connect_ts := connect_with connectionKey_ts.

Definition getConnections (o : orm) : list (string * ref) := connections o.

(** [closeAll()], given what the promise of each [connection.close()]
    becomes. The result: the connections whose [close()] was called, in
    order; what the promise of [closeAll()] becomes; the facade after. *)
Definition closeAll (close : ref -> promise value) (o : orm)
  : list ref * promise unit * orm :=
  let called := Map_values (connections o) in
  let closePromises := List.map close called in
  let all := Promise_all closePromises in
  match outcome all with
  | Throw e => (called, mkPromise (settled_at all) (Throw e), o)
  | Return _ =>
      (called, mkPromise (settled_at all) (Return tt),
       mkOrm [] (factory o) (objects o))
  end.

End UniversalORM.

(** ** Calls to the native drivers

    A method that calls a driver is run against the driver's answers: a
    function from the call made to its completion. What the method does is
    the list of calls it made, in order, and its own completion. *)

Module Driver.

Inductive call : Type :=
| Call (target method : string) (args : list value).

Definition driver : Type := call -> completion value.

Definition io (A : Type) : Type := (list call * completion A)%type.

#[global] Instance io_ret : MRet io := fun A a => ([], Return a).
#[global] Instance io_bind : MBind io :=
  fun A B f m =>
    match m with
    | (t, Return a) => let '(t', r) := f a in (t ++ t', r)
    | (t, Throw e) => (t, Throw e)
    end.

Definition throw {A} (e : error) : io A := ([], Throw e).

(** [target.method(...args)], awaited where the source awaits it: the
    answer is the completion of the expression as it is written. *)
Definition invoke (d : driver) (target method : string) (args : list value)
  : io value :=
  ([Call target method args], d (Call target method args)).

(** [try { m } catch (error) { h error }] *)
Definition try_catch {A} (m : io A) (h : error -> io A) : io A :=
  match m with
  | (t, Return a) => (t, Return a)
  | (t, Throw e) => let '(t', r) := h e in (t ++ t', r)
  end.

(** [try { m } finally { f }]: [f] runs on every path, and an error of
    its own replaces the completion of [m]. *)
Definition try_finally {A} (m : io A) (f : io value) : io A :=
  let '(t, r) := m in
  let '(t', r') := f in
  (t ++ t', match r' with Return _ => r | Throw e => Throw e end).

Definition trace {A} (m : io A) : list call := m.1.
Definition result {A} (m : io A) : completion A := m.2.

(** A driver none of whose calls fails. *)
Definition all_ok (d : driver) : Prop := forall c, exists v, d c = Return v.

Definition is_call (target method : string) (c : call) : bool :=
  match c with
  | Call t m _ => String.eqb t target && String.eqb m method
  end.

Definition is_query (sql : string) (c : call) : bool :=
  match c with
  | Call t m [VStr s] =>
      String.eqb t "client" && String.eqb m "query" && String.eqb s sql
  | _ => false
  end.

(** The calls that commit, roll back and release, over all the drivers. *)
Definition is_commit (c : call) : bool :=
  is_call "session" "commitTransaction" c || is_query "COMMIT" c
  || is_call "tx" "commit" c || is_call "multi" "exec" c.

Definition is_rollback (c : call) : bool :=
  is_call "session" "abortTransaction" c || is_query "ROLLBACK" c
  || is_call "tx" "rollback" c || is_call "multi" "discard" c.

Definition is_release (c : call) : bool :=
  is_call "session" "endSession" c || is_call "client" "release" c
  || is_call "session" "close" c.

End Driver.

(** ** The adapters' [transaction] methods *)

Module BaseAdapter.
Import Driver.

(** Every method of the base class: [throw new Error('Not implemented')]. *)
Definition not_implemented {A} : io A := throw (Error "Not implemented").

Definition transaction (callback : io value) (options : value) : io value :=
  not_implemented.
Definition count (model : string) (query options : value) : io Z :=
  not_implemented.
Definition exists_ (model : string) (query options : value) : io bool :=
  not_implemented.

End BaseAdapter.

(** ** The built-in [JSON] object

    The adapters are given [JSON.stringify] and [JSON.parse] as they are
    in the engine; what is proved of them holds for any such pair. *)

Module Json.

Record builtin : Type := mkBuiltin {
  stringify : value -> value;            (* a string, or undefined *)
  parse : string -> completion value     (* or a SyntaxError *)
}.

Definition SyntaxError (msg : string) : error := mkError "SyntaxError" msg.

(** [JSON.stringify] on the values of the model. *)
Definition hex (n : nat) : string :=
  String (ascii_of_nat (if Nat.ltb n 10 then 48 + n else 87 + n)) "".

Definition escape_char (c : ascii) : string :=
  let n := nat_of_ascii c in
  if Nat.eqb n 34 || Nat.eqb n 92 then String (ascii_of_nat 92) (String c "")
  else if Nat.eqb n 8 then "\b"
  else if Nat.eqb n 9 then "\t"
  else if Nat.eqb n 10 then "\n"
  else if Nat.eqb n 12 then "\f"
  else if Nat.eqb n 13 then "\r"
  else if Nat.ltb n 32 then "\u00" +:+ hex (n / 16) +:+ hex (n mod 16)
  else String c "".

Definition quote (s : string) : string :=
  String (ascii_of_nat 34)
    (String.concat "" (List.map escape_char (list_ascii_of_string s))
     +:+ String (ascii_of_nat 34) "").

Fixpoint stringify_text (v : value) : option string :=
  match v with
  | VUndefined => None
  | VNull => Some "null"
  | VBool true => Some "true"
  | VBool false => Some "false"
  | VNum n => Some (pretty n)
  | VStr s => Some (quote s)
  | VArr items =>
      Some ("[" +:+
            String.concat ","
              (List.map (fun x => default "null" (stringify_text x)) items)
            +:+ "]")
  | VObj props =>
      Some ("{" +:+
            String.concat ","
              (List.concat
                 (List.map (fun p => match stringify_text p.2 with
                                     | Some s => [quote p.1 +:+ ":" +:+ s]
                                     | None => []
                                     end) props))
            +:+ "}")
  end.

Definition stringify_model (v : value) : value :=
  match stringify_text v with Some s => VStr s | None => VUndefined end.

(** [JSON.parse] on the texts of the integers, of the booleans and of
    null, with white space around them. *)
Definition is_space (c : ascii) : bool :=
  let n := nat_of_ascii c in
  Nat.eqb n 32 || Nat.eqb n 9 || Nat.eqb n 10 || Nat.eqb n 13.

Fixpoint skip_spaces (s : list ascii) : list ascii :=
  match s with
  | c :: s' => if is_space c then skip_spaces s' else s
  | [] => []
  end.

Definition trim (s : string) : list ascii :=
  rev (skip_spaces (rev (skip_spaces (list_ascii_of_string s)))).

Definition digit (c : ascii) : option Z :=
  let n := nat_of_ascii c in
  if Nat.leb 48 n && Nat.leb n 57 then Some (Z.of_nat (n - 48)) else None.

Fixpoint digits (acc : Z) (s : list ascii) : option Z :=
  match s with
  | [] => Some acc
  | c :: s' =>
      match digit c with
      | Some k => digits (10 * acc + k) s'
      | None => None
      end
  end.

(** An optional minus sign, then 0 alone or digits that do not start
    with 0. *)
Definition integer (s : list ascii) : option Z :=
  let unsigned (s : list ascii) : option Z :=
    match s with
    | [] => None
    | [c] => digit c
    | c :: s' =>
        match digit c with
        | Some 0 | None => None
        | Some k => digits k s'
        end
    end in
  match s with
  | c :: s' =>
      if Nat.eqb (nat_of_ascii c) 45 then Z.opp <$> unsigned s'
      else unsigned s
  | [] => None
  end.

Definition parse_scalar (s : string) : completion value :=
  let t := trim s in
  let text := string_of_list_ascii t in
  if String.eqb text "null" then Return VNull
  else if String.eqb text "true" then Return (VBool true)
  else if String.eqb text "false" then Return (VBool false)
  else match integer t with
       | Some n => Return (VNum n)
       | None => Throw (SyntaxError "Unexpected token in JSON")
       end.

Definition scalars : builtin := mkBuiltin stringify_model parse_scalar.

End Json.

(** ** adapters/MongoAdapter *)

Module MongoAdapter.
Import Driver.

(** MongoAdapter.js, [transaction(callback)]; the callback is given the
    session and may call it. *)
Definition transaction (d : driver) (callback : io value) : io value :=
  session ← invoke d "connection" "startSession" [];
  try_finally
    (try_catch
       (_ ← invoke d "session" "startTransaction" [];
        result ← callback;
        _ ← invoke d "session" "commitTransaction" [];
        mret result)
       (fun error =>
          _ ← invoke d "session" "abortTransaction" [];
          throw (DatabaseError ("Transaction failed: " +:+ message error))))
    (invoke d "session" "endSession" []).

Definition operatorMap : list (string * string) :=
  [ ("$eq", "$eq"); ("$ne", "$ne"); ("$gt", "$gt"); ("$gte", "$gte");
    ("$lt", "$lt"); ("$lte", "$lte"); ("$in", "$in"); ("$nin", "$nin");
    ("$regex", "$regex"); ("$exists", "$exists") ].

(** [operatorMap] is an object literal. Under a name that is not among
    its keys, [operatorMap[operator]] is what [Object.prototype] has under
    the name: a function, or under [__proto__] the prototype itself.
    Either is truthy, and the property key that it makes is its string. *)
Definition Object_prototype : list (string * string) :=
  [ ("constructor", "function Object() { [native code] }");
    ("__defineGetter__", "function __defineGetter__() { [native code] }");
    ("__defineSetter__", "function __defineSetter__() { [native code] }");
    ("hasOwnProperty", "function hasOwnProperty() { [native code] }");
    ("__lookupGetter__", "function __lookupGetter__() { [native code] }");
    ("__lookupSetter__", "function __lookupSetter__() { [native code] }");
    ("isPrototypeOf", "function isPrototypeOf() { [native code] }");
    ("propertyIsEnumerable",
     "function propertyIsEnumerable() { [native code] }");
    ("toString", "function toString() { [native code] }");
    ("valueOf", "function valueOf() { [native code] }");
    ("__proto__", "[object Object]");
    ("toLocaleString", "function toLocaleString() { [native code] }") ].

(** [operatorMap[operator]] when it is truthy, as the key of
    [conditions[operatorMap[operator]]]. *)
Definition lookup (operatorMap : list (string * string)) (operator : string)
  : option string :=
  match assoc operator operatorMap with
  | Some native => if String.eqb native "" then None else Some native
  | None => assoc operator Object_prototype
  end.

(** [o[k] = v] on an object made by [{}]: under [__proto__] the assignment
    goes to the setter of [Object.prototype], which adds no key. *)
Definition Object_set (k : string) (v : value) (o : list (string * value))
  : list (string * value) :=
  if String.eqb k "__proto__" then o else assoc_set k v o.

(** The inner loop: the operand of an operator under which the map has
    something truthy is copied under that; any other operator is passed
    over. *)
Fixpoint convert_operators (operatorMap : list (string * string))
    (entries conditions : list (string * value)) : list (string * value) :=
  match entries with
  | [] => conditions
  | (operator, operand) :: rest =>
      match lookup operatorMap operator with
      | Some native =>
          convert_operators operatorMap rest
            (Object_set native operand conditions)
      | None => convert_operators operatorMap rest conditions
      end
  end.

(** The outer loop. [null_guard] is the [value !== null] that the
    TypeScript source has and MongoAdapter.js lacks. *)
Fixpoint process_entries (null_guard : bool)
    (operatorMap : list (string * string))
    (entries processed : list (string * value))
  : completion (list (string * value)) :=
  match entries with
  | [] => Return processed
  | (key, value) :: rest =>
      if String.eqb (typeof value) "object"
         && (if null_guard then negb (if value is VNull then true else false)
             else true)
         && negb (Array_isArray value)
      then
        operators ← Object_entries value;
        let conditions := convert_operators operatorMap operators [] in
        process_entries null_guard operatorMap rest
          (Object_set key
             (if Nat.ltb 0 (length conditions) then VObj conditions else value)
             processed)
      else
        process_entries null_guard operatorMap rest
          (Object_set key value processed)
  end.

(** MongoAdapter.js *)
Definition _processQueryOperators (query : value)
    (operatorMap : list (string * string)) : completion value :=
  entries ← Object_entries query;
  processed ← process_entries false operatorMap entries [];
  mret (VObj processed).

Definition _convertQuery (query : value) : completion value :=
  _processQueryOperators query operatorMap.

(** The TypeScript adapter *)
Definition _processQueryOperators_ts (query : value)
    (operatorMap : list (string * string)) : completion value :=
  entries ← Object_entries query;
  processed ← process_entries true operatorMap entries [];
  mret (VObj processed).

Definition _convertQuery_ts (query : value) : completion value :=
  _processQueryOperators_ts query operatorMap.

(** A pure step inside a method that calls drivers. *)
Definition lift {A} (c : completion A) : io A := ([], c).

(** [this.models.get(modelName)], or the error of [_getModel]. *)
Definition _getModel (models : list string) (modelName : string)
  : completion string :=
  if existsb (String.eqb modelName) models then Return modelName
  else Throw (Error ("Model " +:+ modelName +:+ " not found")).

(** The TypeScript adapter's [count]; [countDocuments] answers with a
    number, which is the declared type of its promise. *)
Definition count (countDocuments : string -> value -> completion Z)
    (models : list string) (model : string) (query options : value) : io Z :=
  try_catch
    (modelInstance ← lift (_getModel models model);
     filter ← lift (_convertQuery_ts
                      (if query is VUndefined then VObj [] else query));
     ([Call modelInstance "countDocuments" [filter]],
      countDocuments modelInstance filter))
    (fun error =>
       throw (DatabaseError ("Count operation failed: " +:+ message error))).

Definition exists_ (countDocuments : string -> value -> completion Z)
    (models : list string) (model : string) (query options : value)
  : io bool :=
  try_catch
    (count ← count countDocuments models model query options;
     mret (0 <? count))
    (fun error =>
       throw (DatabaseError ("Exists operation failed: " +:+ message error))).

End MongoAdapter.

(** ** adapters/CockroachDBAdapter *)

Module CockroachDBAdapter.
Import Driver.

(** [transaction(callback, options = {})]; the callback is given the
    client. An undefined [options] stands for the default. *)
Definition transaction (d : driver) (callback : io value) (options : value)
  : io value :=
  client ← invoke d "pool" "connect" [];
  try_finally
    (try_catch
       (_ ← invoke d "client" "query" [VStr "BEGIN"];
        _ ← (match options, get options "priority" with
             | VNull, _ =>
                 throw (TypeError
                          "Cannot read properties of null (reading 'priority')")
             | _, VStr priority =>
                 if String.eqb priority "high"
                 then invoke d "client" "query"
                        [VStr "SET TRANSACTION PRIORITY HIGH"]
                 else mret VUndefined
             | _, _ => mret VUndefined
             end);
        result ← callback;
        _ ← invoke d "client" "query" [VStr "COMMIT"];
        mret result)
       (fun error =>
          _ ← invoke d "client" "query" [VStr "ROLLBACK"];
          throw (DatabaseError ("Transaction failed: " +:+ message error))))
    (invoke d "client" "release" []).

(** The placeholder [$n]. *)
Definition placeholder (paramCount : nat) : string := "$" +:+ pretty paramCount.

(** The cases of the [switch]: what stands around the key and the
    placeholder. *)
Definition operators : list (string * (string -> string -> string)) :=
  [ ("$eq", fun key p => key +:+ " = " +:+ p);
    ("$ne", fun key p => key +:+ " != " +:+ p);
    ("$gt", fun key p => key +:+ " > " +:+ p);
    ("$gte", fun key p => key +:+ " >= " +:+ p);
    ("$lt", fun key p => key +:+ " < " +:+ p);
    ("$lte", fun key p => key +:+ " <= " +:+ p);
    ("$in", fun key p => key +:+ " = ANY(" +:+ p +:+ ")");
    ("$nin", fun key p => key +:+ " != ALL(" +:+ p +:+ ")");
    ("$like", fun key p => key +:+ " LIKE " +:+ p);
    ("$ilike", fun key p => key +:+ " ILIKE " +:+ p);
    ("$contains", fun key p => key +:+ " @> " +:+ p);
    ("$contained", fun key p => key +:+ " <@ " +:+ p);
    ("$overlap", fun key p => key +:+ " && " +:+ p);
    ("$any", fun key p => p +:+ " = ANY(" +:+ key +:+ ")");
    ("$all", fun key p => p +:+ " = ALL(" +:+ key +:+ ")") ].

Definition _buildOperatorCondition (key operator : string) (value : value)
    (paramCount : nat) : completion (string * Js.value) :=
  match assoc operator operators with
  | Some condition => Return (condition key (placeholder paramCount), value)
  | None => Throw (Error ("Unknown operator: " +:+ operator))
  end.

(** What [_buildWhereClause] accumulates. *)
Record clause : Type := mkClause {
  conditions : list string;
  values : list value;
  paramCount : nat
}.

Fixpoint where_operators (key : string) (entries : list (string * value))
    (c : clause) : completion clause :=
  match entries with
  | [] => Return c
  | (operator, operand) :: rest =>
      '(condition, operandValue) ←
        _buildOperatorCondition key operator operand (paramCount c);
      where_operators key rest
        (mkClause (conditions c ++ [condition]) (values c ++ [operandValue])
                  (S (paramCount c)))
  end.

Fixpoint where_entries (entries : list (string * value)) (c : clause)
  : completion clause :=
  match entries with
  | [] => Return c
  | (key, value) :: rest =>
      if String.eqb (typeof value) "object"
         && negb (if value is VNull then true else false)
      then
        operators ← Object_entries value;
        c' ← where_operators key operators c;
        where_entries rest c'
      else
        where_entries rest
          (mkClause (conditions c ++ [key +:+ " = " +:+ placeholder (paramCount c)])
                    (values c ++ [value])
                    (S (paramCount c)))
  end.

(** [{ conditions, values }] *)
Definition _buildWhereClause (query : value)
  : completion (string * list value) :=
  entries ← Object_entries query;
  c ← where_entries entries (mkClause [] [] 1);
  mret (String.concat " AND " (conditions c), values c).

Definition nl : string := String (ascii_of_nat 10) "".

(** [{ text, values }] *)
Definition _buildSelectQuery (tableName : string)
    (query select orderBy limit offset forUpdate : value)
  : completion (string * list value) :=
  '(conditions, values) ← _buildWhereClause query;
  let queryText :=
    nl +:+ "            SELECT " +:+ ToString select +:+
    nl +:+ "            FROM " +:+ tableName +:+
    nl +:+ "            " +:+
      (if negb (String.eqb conditions "") then "WHERE " +:+ conditions else "")
    +:+ nl +:+ "        " in
  queryText ←
    (if truthy orderBy then
       columns ← Object_entries orderBy;
       let orderClauses :=
         List.map (fun '(column, order) =>
                     column +:+ " " +:+
                     (if order is VNum (-1) then "DESC" else "ASC"))
                  columns in
       mret (queryText +:+ " ORDER BY " +:+ String.concat ", " orderClauses)
     else mret queryText);
  let queryText :=
    if truthy limit then queryText +:+ " LIMIT " +:+ ToString limit
    else queryText in
  let queryText :=
    if truthy offset then queryText +:+ " OFFSET " +:+ ToString offset
    else queryText in
  let queryText :=
    if truthy forUpdate then queryText +:+ " FOR UPDATE" else queryText in
  mret (queryText, values).

(** A schema default: a function, taken for what it returns when called,
    or a value. *)
Inductive default_value : Type :=
| DefaultFunction (returns : value)
| DefaultValue (v : value).

(** [_formatDefaultValue(value, type)]: what is put after [DEFAULT] in the
    column definition. *)
Definition _formatDefaultValue (J : Json.builtin) (value : default_value)
    (type : string) : completion Js.value :=
  match value with
  | DefaultFunction returns => Return returns
  | DefaultValue value =>
      if String.eqb type "string" || String.eqb type "text"
      then Return (VStr ("'" +:+ ToString value +:+ "'"))
      else if String.eqb type "json"
      then Return (VStr ("'" +:+ ToString (Json.stringify J value)
                         +:+ "'::jsonb"))
      else if String.eqb type "array"
      then match value with
           | VArr items =>
               Return (VStr ("ARRAY[" +:+
                             String.concat ", "
                               (List.map (fun v => "'" +:+ ToString v +:+ "'")
                                         items)
                             +:+ "]"))
           | _ => Throw (TypeError "value.map is not a function")
           end
      else if String.eqb type "date"
      then Return (VStr (if value is VStr "now" then "CURRENT_TIMESTAMP"
                         else "'" +:+ ToString value +:+ "'"))
      else Return value
  end.

End CockroachDBAdapter.

(** ** adapters/ArangoAdapter *)

Module ArangoAdapter.

(** What an [aql] template literal builds: its literal texts, and between
    them the interpolated values, every one of which becomes a bind
    parameter. *)
Inductive part : Type :=
| Text (s : string)
| Bind (v : value).

Definition aql : Type := list part.

(** [aql.join(queries, sep)] *)
Fixpoint aql_join (queries : list aql) (sep : string) : aql :=
  match queries with
  | [] => []
  | [q] => q
  | q :: rest => q ++ Text sep :: aql_join rest sep
  end.

Definition _buildOperatorExpression (key operator : string) (value : value)
  : completion aql :=
  let doc_key := [Text "doc."; Bind (VStr key)] in
  if String.eqb operator "$eq"
  then Return (doc_key ++ [Text " == "; Bind value])
  else if String.eqb operator "$ne"
  then Return (doc_key ++ [Text " != "; Bind value])
  else if String.eqb operator "$gt"
  then Return (doc_key ++ [Text " > "; Bind value])
  else if String.eqb operator "$gte"
  then Return (doc_key ++ [Text " >= "; Bind value])
  else if String.eqb operator "$lt"
  then Return (doc_key ++ [Text " < "; Bind value])
  else if String.eqb operator "$lte"
  then Return (doc_key ++ [Text " <= "; Bind value])
  else if String.eqb operator "$in"
  then Return (doc_key ++ [Text " IN "; Bind value])
  else if String.eqb operator "$nin"
  then Return (doc_key ++ [Text " NOT IN "; Bind value])
  else if String.eqb operator "$exists"
  then Return (if truthy value
               then [Text "HAS(doc, "; Bind (VStr key); Text ")"]
               else [Text "!HAS(doc, "; Bind (VStr key); Text ")"])
  else if String.eqb operator "$regex"
  then Return ([Text "REGEX_TEST("] ++ doc_key ++
               [Text ", "; Bind value; Text ", true)"])
  else Throw (Error ("Unknown operator: " +:+ operator)).

Definition supported : list string :=
  ["$eq"; "$ne"; "$gt"; "$gte"; "$lt"; "$lte"; "$in"; "$nin"; "$exists";
   "$regex"].

Fixpoint filter_operators (key : string) (entries : list (string * value))
    (conditions : list aql) : completion (list aql) :=
  match entries with
  | [] => Return conditions
  | (operator, operand) :: rest =>
      condition ← _buildOperatorExpression key operator operand;
      filter_operators key rest (conditions ++ [condition])
  end.

Fixpoint filter_entries (entries : list (string * value))
    (conditions : list aql) : completion (list aql) :=
  match entries with
  | [] => Return conditions
  | (key, value) :: rest =>
      if String.eqb (typeof value) "object"
         && negb (if value is VNull then true else false)
      then
        operators ← Object_entries value;
        conditions' ← filter_operators key operators conditions;
        filter_entries rest conditions'
      else
        filter_entries rest
          (conditions ++ [[Text "doc."; Bind (VStr key); Text " == "; Bind value]])
  end.

(** The conditions, before they are joined. *)
Definition filter_conditions (query : value) : completion (list aql) :=
  entries ← Object_entries query;
  filter_entries entries [].

Definition _buildFilterExpression (query : value) : completion aql :=
  conditions ← filter_conditions query;
  mret (if Nat.ltb 0 (length conditions) then aql_join conditions " AND "
        else [Text "true"]).

End ArangoAdapter.

(** ** adapters/RedisAdapter *)

Module RedisAdapter.
Import Driver.

(** [transaction(callback)]: the callback is given [multi] and queues its
    commands on it. *)
Definition transaction (d : driver) (callback : io value) : io value :=
  multi ← invoke d "client" "multi" [];
  try_catch
    (_ ← callback;
     invoke d "multi" "exec" [])
    (fun error =>
       throw (DatabaseError ("Redis transaction failed: " +:+ message error))).

Definition _serialize (J : Json.builtin) (value : value) : Js.value :=
  if String.eqb (typeof value) "string" then value else Json.stringify J value.

Definition _deserialize (J : Json.builtin) (value : value) : Js.value :=
  match value with
  | VNull => VNull
  | _ =>
      match Json.parse J (ToString value) with
      | Return parsed => parsed
      | Throw _ => value
      end
  end.

(** *** The server behind [this.client]

    A key holds a string, and the time to live it was set with; time does
    not pass in the model. *)
Record entry : Type := mkEntry { data : string; ttl : option Z }.

Definition ReplyError (msg : string) : error := mkError "ReplyError" msg.

(** How the client sends an argument. *)
Definition toArg (v : value) : string :=
  match v with
  | VUndefined | VNull => ""
  | _ => ToString v
  end.

Record flags : Type := mkFlags { EX : option Z; NX : bool; XX : bool }.

(** The arguments of SET after the key and the value. *)
Fixpoint set_flags (args : list string) (f : flags) : completion flags :=
  match args with
  | [] => Return f
  | arg :: rest =>
      if String.eqb arg "NX" then set_flags rest (mkFlags (EX f) true (XX f))
      else if String.eqb arg "XX" then set_flags rest (mkFlags (EX f) (NX f) true)
      else if String.eqb arg "EX" then
        match rest with
        | seconds :: rest' =>
            match Json.integer (list_ascii_of_string seconds) with
            | Some n =>
                if 0 <? n then set_flags rest' (mkFlags (Some n) (NX f) (XX f))
                else Throw (ReplyError "ERR invalid expire time in 'set' command")
            | None =>
                Throw (ReplyError "ERR value is not an integer or out of range")
            end
        | [] => Throw (ReplyError "ERR syntax error")
        end
      else Throw (ReplyError "ERR syntax error")
  end.

(** [client.set(...args)]: the reply is OK, or null when NX or XX kept the
    key as it was. *)
Definition client_set (args : list value) (db : gmap string entry)
  : completion value * gmap string entry :=
  match List.map toArg args with
  | key :: value :: rest =>
      match set_flags rest (mkFlags None false false) with
      | Throw e => (Throw e, db)
      | Return f =>
          if NX f && XX f then (Throw (ReplyError "ERR syntax error"), db)
          else if NX f && bool_decide (is_Some (db !! key))
          then (Return VNull, db)
          else if XX f && negb (bool_decide (is_Some (db !! key)))
          then (Return VNull, db)
          else (Return (VStr "OK"), <[key := mkEntry value (EX f)]> db)
      end
  | _ =>
      (Throw (ReplyError "ERR wrong number of arguments for 'set' command"), db)
  end.

(** [client.get(key)] *)
Definition client_get (key : string) (db : gmap string entry) : value :=
  match db !! key with
  | Some e => VStr (data e)
  | None => VNull
  end.

(** *** Key-value operations

    [options] is what the caller passes: undefined stands for the default
    [{}]. *)

Definition create (J : Json.builtin) (key : string) (value options : value)
    (db : gmap string entry) : completion Js.value * gmap string entry :=
  let catch (error : error) : completion Js.value :=
    Throw (DatabaseError ("Redis SET operation failed: " +:+ message error)) in
  match options with
  | VNull =>
      (catch (TypeError "Cannot destructure 'options' as it is null."), db)
  | _ =>
      let ttl := get options "ttl" in
      let nx := get options "nx" in
      let xx := get options "xx" in
      let args := [VStr key; _serialize J value] in
      let args := if truthy ttl then args ++ [VStr "EX"; ttl] else args in
      let args := if truthy nx then args ++ [VStr "NX"] else args in
      let args := if truthy xx then args ++ [VStr "XX"] else args in
      match client_set args db with
      | (Throw error, db') => (catch error, db')
      | (Return reply, db') => (Return reply, db')
      end
  end.

(** [get(key)]; a read leaves the server as it is. *)
Definition get (J : Json.builtin) (key : string) (db : gmap string entry)
  : completion Js.value :=
  Return (_deserialize J (client_get key db)).

End RedisAdapter.

(** ** The [count] and [exists] of every adapter class *)

Module Adapters.

(** The repository holds the adapters twice, in JavaScript and in
    TypeScript. *)
Inductive sources : Type := JavaScript | TypeScript.

(** The TypeScript MongoAdapter defines [count] and [exists]. Every other
    class has the throwing method of the base class, inherited from
    BaseAdapter.js or written out again (the TypeScript PostgresAdapter and
    CockroachDBAdapter, the compiled ElasticsearchAdapter); a class of the
    caller is taken with what it inherits. *)
Definition count (src : sources) (a : DatabaseFactory.ctor)
    (countDocuments : string -> value -> completion Z) (models : list string)
    (model : string) (query options : value) : Driver.io Z :=
  match src, a with
  | TypeScript, DatabaseFactory.MongoAdapter =>
      MongoAdapter.count countDocuments models model query options
  | _, _ => BaseAdapter.count model query options
  end.

Definition exists_ (src : sources) (a : DatabaseFactory.ctor)
    (countDocuments : string -> value -> completion Z) (models : list string)
    (model : string) (query options : value) : Driver.io bool :=
  match src, a with
  | TypeScript, DatabaseFactory.MongoAdapter =>
      MongoAdapter.exists_ countDocuments models model query options
  | _, _ => BaseAdapter.exists_ model query options
  end.

End Adapters.

(** * More of the facade, the factory and the adapters *)

(** ** The cache of the facade, in good order *)

Module Invariants.
Import DatabaseFactory UniversalORM.

(** No key twice, no object under two keys, and every cached reference
    allocated. *)
Definition well_formed (o : orm) : Prop :=
  NoDup (List.map fst (connections o)) /\
  NoDup (List.map snd (connections o)) /\
  Forall (fun r => (r < length (objects o))%nat) (List.map snd (connections o)).

End Invariants.

(** ** Members, defaults and destructuring *)

Module Members.

(** [o[k]] and [o.k], for any value that has properties. *)
Definition prop (o : value) (k : string) : value :=
  match o with
  | VObj props => default VUndefined (assoc k props)
  | VArr items =>
      if String.eqb k "length" then VNum (Z.of_nat (length items))
      else default VUndefined (assoc k (indexed 0 items))
  | VStr s =>
      if String.eqb k "length" then VNum (Z.of_nat (String.length s))
      else default VUndefined (assoc k (indexed 0 (chars s)))
  | _ => VUndefined
  end.

(** The same, of a value that may be null or undefined. *)
Definition member (o : value) (k : string) : completion value :=
  match o with
  | VUndefined | VNull =>
      Throw (TypeError ("Cannot read properties of " +:+ ToString o +:+
                        " (reading '" +:+ k +:+ "')"))
  | _ => Return (prop o k)
  end.

(** [const { k = d } = options] *)
Definition or_default (v d : value) : value :=
  match v with VUndefined => d | _ => v end.

(** [const { property, ... } = options], for a parameter [options = {}]:
    undefined gives the default, and null cannot be destructured. *)
Definition destructure (property : string) (options : value)
  : completion value :=
  match options with
  | VUndefined => Return (VObj [])
  | VNull =>
      Throw (TypeError ("Cannot destructure property '" +:+ property +:+
                        "' of 'options' as it is null."))
  | _ => Return options
  end.

(** [array.map(f)], when [f] can throw. *)
Fixpoint mapM {A B} (f : A -> completion B) (l : list A)
  : completion (list B) :=
  match l with
  | [] => Return []
  | a :: l' =>
      b ← f a;
      bs ← mapM f l';
      mret (b :: bs)
  end.

End Members.

(** ** adapters/MongoAdapter: what [_convertQuery] makes of a field *)

Module MongoQuery.

(** What the inner loop keeps of an operator object: the operands of the
    operators under which the map has something, each under the key that
    the map gives, in their order. *)
Definition kept (operators : list (string * value)) : list (string * value) :=
  flat_map
    (fun o => match MongoAdapter.lookup MongoAdapter.operatorMap o.1 with
              | Some native => [(native, o.2)]
              | None => []
              end)
    operators.

(** A field's value after the conversion: of an object the loop keeps
    what it keeps, if it keeps anything; any other value stays. *)
Definition converted (v : value) : value :=
  match v with
  | VObj operators =>
      match kept operators with
      | [] => v
      | conditions => VObj conditions
      end
  | _ => v
  end.

Definition converted_entry (e : string * value) : string * value :=
  (e.1, converted e.2).

(** A predicate as an object literal gives it: no field twice, no field
    under the key [__proto__] (which in a literal sets the prototype), and
    no operator twice in an operator object. *)
Definition distinct_keys (entries : list (string * value)) : Prop :=
  NoDup (List.map fst entries) /\
  ~ In "__proto__" (List.map fst entries) /\
  Forall (fun e => match e.2 with
                   | VObj operators => NoDup (List.map fst operators)
                   | _ => True
                   end) entries.

(** No operator of the predicate names a member of [Object.prototype]. *)
Definition own_operators (entries : list (string * value)) : Prop :=
  Forall (fun e => match e.2 with
                   | VObj operators =>
                       Forall (fun o => assoc o.1 MongoAdapter.Object_prototype
                                        = None) operators
                   | _ => True
                   end) entries.


End MongoQuery.

(** ** adapters/RedisAdapter: the other operations *)

Module RedisOperations.
Import Driver RedisAdapter.

(** [cache(key, callback, ttl = 3600)]. The class, like its base, has no
    method [set]: the call [this.set(key, value, { ttl })] is a call of
    undefined. *)
Definition cache (J : Json.builtin) (key : string) (callback : io value)
    (ttl : value) (db : gmap string entry) : io value :=
  try_catch
    (value ← MongoAdapter.lift (get J key db);
     match value with
     | VNull =>
         value ← callback;
         throw (TypeError "this.set is not a function")
     | _ => mret value
     end)
    (fun error =>
       throw (DatabaseError ("Cache operation failed: " +:+ message error))).

(** [close()], for an adapter with or without the two connections of
    pub/sub. *)
Definition close (d : driver) (subscriber publisher : bool) : io value :=
  try_catch
    (_ ← invoke d "client" "quit" [];
     _ ← (if subscriber then invoke d "subscriber" "quit" []
          else mret VUndefined);
     _ ← (if publisher then invoke d "publisher" "quit" []
          else mret VUndefined);
     mret VUndefined)
    (fun error =>
       throw (DatabaseError ("Redis close failed: " +:+ message error))).

(** [publish(channel, message)] *)
Definition publish (J : Json.builtin) (d : driver) (publisher : bool)
    (channel : string) (message : value) : io value :=
  try_catch
    (if negb publisher then throw (Error "Pub/Sub not enabled")
     else invoke d "publisher" "publish" [VStr channel; _serialize J message])
    (fun error =>
       throw (DatabaseError
                ("Redis PUBLISH operation failed: " +:+ Js.message error))).

(** The listener that [subscribe(channel, callback)] installs: what it
    passes to the callback when the message [message] arrives on the
    channel [ch], if it calls it at all. *)
Definition on_message (J : Json.builtin) (channel ch : string)
    (message : value) : option value :=
  if String.eqb ch channel then Some (_deserialize J message) else None.

End RedisOperations.

(** ** adapters/CockroachDBAdapter: the methods that build and send SQL *)

Module CockroachDBCrud.
Import Driver Members CockroachDBAdapter.

(** [_formatValue(value, definition)]; [newDate] is [new Date(value)],
    whose result the model takes as given. *)
Definition _formatValue (J : Json.builtin) (newDate : value -> value)
    (value definition : value) : completion Js.value :=
  match value with
  | VNull | VUndefined => Return VNull
  | _ =>
      type ← member definition "type";
      match type with
      | VStr type =>
          if String.eqb type "json"
          then Return (if String.eqb (typeof value) "string" then value
                       else Json.stringify J value)
          else if String.eqb type "date" then Return (newDate value)
          else if String.eqb type "array"
          then Return (if Array_isArray value then value else VArr [value])
          else if String.eqb type "decimal"
          then Return (if String.eqb (typeof value) "string" then value
                       else VStr (ToString value))
          else Return value
      | _ => Return value
      end
  end.

(** What [_buildSetClause] accumulates. *)
Record set_clause : Type := mkSet {
  setClauses : list string;
  set_values : list value;
  set_paramCount : nat
}.

Definition set_step (J : Json.builtin) (newDate : value -> value)
    (schema : value) (entry : string * value) (s : set_clause)
  : completion set_clause :=
  let '(key, value) := entry in
  let p := placeholder (set_paramCount s) in
  let bind (clause : string) (v : Js.value) :=
    mkSet (setClauses s ++ [clause]) (set_values s ++ [v])
          (S (set_paramCount s)) in
  if String.eqb (typeof value) "object"
     && negb (if value is VNull then true else false)
  then
    if truthy (get value "$inc")
    then Return (bind (key +:+ " = " +:+ key +:+ " + " +:+ p) (get value "$inc"))
    else if truthy (get value "$set")
    then Return (bind (key +:+ " = " +:+ p) (get value "$set"))
    else if truthy (get value "$push")
    then Return (bind (key +:+ " = array_append(" +:+ key +:+ ", " +:+ p +:+ ")")
                      (get value "$push"))
    else if truthy (get value "$pull")
    then Return (bind (key +:+ " = array_remove(" +:+ key +:+ ", " +:+ p +:+ ")")
                      (get value "$pull"))
    else if truthy (get value "$unset")
    then Return (mkSet (setClauses s ++ [key +:+ " = NULL"]) (set_values s)
                       (set_paramCount s))
    else Return s
  else
    definition ← member schema key;
    formatted ← _formatValue J newDate value definition;
    Return (bind (key +:+ " = " +:+ p) formatted).

Fixpoint set_loop (J : Json.builtin) (newDate : value -> value)
    (schema : value) (entries : list (string * value)) (s : set_clause)
  : completion set_clause :=
  match entries with
  | [] => Return s
  | entry :: rest =>
      s' ← set_step J newDate schema entry s;
      set_loop J newDate schema rest s'
  end.

(** The values that [_buildSetClause] passes over: an array, and an
    object none of whose [$inc], [$set], [$push], [$pull] and [$unset] is
    truthy. *)
Definition passed_over (v : value) : bool :=
  String.eqb (typeof v) "object"
  && negb (if v is VNull then true else false)
  && negb (truthy (get v "$inc")) && negb (truthy (get v "$set"))
  && negb (truthy (get v "$push")) && negb (truthy (get v "$pull"))
  && negb (truthy (get v "$unset")).

(** [{ text, values }] *)
Definition _buildSetClause (J : Json.builtin) (newDate : value -> value)
    (update schema : value) : completion (string * list value) :=
  entries ← Object_entries update;
  s ← set_loop J newDate schema entries (mkSet [] [] 1);
  mret (String.concat ", " (setClauses s), set_values s).

(** The inner loop of [_buildValuePlaceholders]: the placeholders of one
    row, and the counter after them. *)
Fixpoint row_placeholders (columnCount paramCount : nat)
  : list string * nat :=
  match columnCount with
  | O => ([], paramCount)
  | S j =>
      let '(placeholders, paramCount') := row_placeholders j (S paramCount) in
      (placeholder paramCount :: placeholders, paramCount')
  end.

Fixpoint value_rows (rowCount columnCount paramCount : nat) : list string :=
  match rowCount with
  | O => []
  | S i =>
      let '(placeholders, paramCount') :=
        row_placeholders columnCount paramCount in
      ("(" +:+ String.concat ", " placeholders +:+ ")")
      :: value_rows i columnCount paramCount'
  end.

Definition _buildValuePlaceholders (rowCount columnCount : nat) : string :=
  String.concat ", " (value_rows rowCount columnCount 1).

(** [this.models]: the models by table name. *)
Definition _getModel (models : list (string * value)) (tableName : string)
  : completion value :=
  match assoc tableName models with
  | Some model =>
      if truthy model then Return model
      else Throw (Error ("Model " +:+ tableName +:+ " not found"))
  | None => Throw (Error ("Model " +:+ tableName +:+ " not found"))
  end.

Definition indent16 : string := nl +:+ "                ".
Definition indent12 : string := nl +:+ "            ".

(** What the five methods share: the client is taken from the pool, the
    body is tried, its error is caught and wrapped, and the client is
    released in [finally]. *)
Definition with_client {A} (d : driver) (failed : string) (body : io A)
  : io A :=
  client ← invoke d "pool" "connect" [];
  try_finally
    (try_catch body
       (fun error => throw (DatabaseError (failed +:+ message error))))
    (invoke d "client" "release" []).

(** [const result = await client.query(text, values); return result.rows] *)
Definition send (d : driver) (text : string) (values : list value)
  : io value :=
  result ← invoke d "client" "query" [VStr text; VArr values];
  MongoAdapter.lift (member result "rows").

(** The statement of [find]: the text and the values it sends. *)
Definition find_statement (tableName : string) (query options : value)
  : completion (string * list value) :=
  options ← destructure "select" options;
  _buildSelectQuery tableName (or_default query (VObj []))
    (or_default (get options "select") (VStr "*"))
    (get options "orderBy") (get options "limit") (get options "offset")
    (or_default (get options "forUpdate") (VBool false)).

Definition find (d : driver) (tableName : string) (query options : value)
  : io value :=
  with_client d "Find failed: "
    ('(text, values) ← MongoAdapter.lift (find_statement tableName query options);
     send d text values).

Definition where_line (conditions : string) : string :=
  if negb (String.eqb conditions "") then "WHERE " +:+ conditions else "".

Definition returning_line (returning : value) : string :=
  if truthy returning then "RETURNING " +:+ ToString returning else "".

(** The statement of [update]. *)
Definition update_statement (J : Json.builtin) (newDate : value -> value)
    (models : list (string * value)) (tableName : string)
    (query update options : value) : completion (string * list value) :=
  options ← destructure "returning" options;
  let returning := or_default (get options "returning") (VStr "*") in
  model ← _getModel models tableName;
  '(conditions, values) ← _buildWhereClause query;
  '(text, setValues) ← _buildSetClause J newDate update (prop model "schema");
  mret (indent16 +:+ "UPDATE " +:+ tableName +:+
        indent16 +:+ "SET " +:+ text +:+
        indent16 +:+ where_line conditions +:+
        indent16 +:+ returning_line returning +:+
        indent12,
        setValues ++ values).

Definition update (J : Json.builtin) (newDate : value -> value) (d : driver)
    (models : list (string * value)) (tableName : string)
    (query update options : value) : io value :=
  with_client d "Update failed: "
    ('(text, values) ←
       MongoAdapter.lift
         (update_statement J newDate models tableName query update options);
     send d text values).

(** The statement of [delete]. *)
Definition delete_statement (tableName : string) (query options : value)
  : completion (string * list value) :=
  options ← destructure "returning" options;
  let returning := or_default (get options "returning") (VStr "*") in
  '(conditions, values) ← _buildWhereClause query;
  mret (indent16 +:+ "DELETE FROM " +:+ tableName +:+
        indent16 +:+ where_line conditions +:+
        indent16 +:+ returning_line returning +:+
        indent12,
        values).

Definition delete (d : driver) (tableName : string) (query options : value)
  : io value :=
  with_client d "Delete failed: "
    ('(text, values) ← MongoAdapter.lift (delete_statement tableName query options);
     send d text values).

(** [query(query, values = [])]: the raw statement. *)
Definition query (d : driver) (text values : value) : io value :=
  with_client d "Query failed: "
    (result ← invoke d "client" "query" [text; or_default values (VArr [])];
     MongoAdapter.lift (member result "rows")).

(** The statement of [insert], or nothing when there is no record. *)
Definition insert_statement (J : Json.builtin) (newDate : value -> value)
    (models : list (string * value)) (tableName : string)
    (data options : value) : completion (option (string * list value)) :=
  options ← destructure "returning" options;
  let returning := or_default (get options "returning") (VStr "*") in
  let onConflict := or_default (get options "onConflict") VNull in
  let records := match data with VArr items => items | _ => [data] end in
  match records with
  | [] => Return None
  | first :: _ =>
      model ← _getModel models tableName;
      entries ← Object_entries first;
      let columns := List.map fst entries in
      values ←
        mapM (fun record =>
                mapM (fun col =>
                        v ← member record col;
                        definition ← member (prop model "schema") col;
                        _formatValue J newDate v definition)
                     columns)
             records;
      let query :=
        indent16 +:+ "INSERT INTO " +:+ tableName +:+
        " (" +:+ String.concat ", " columns +:+ ")" +:+
        indent16 +:+ "VALUES " +:+
        _buildValuePlaceholders (length records) (length columns) +:+
        indent12 in
      let query :=
        if truthy onConflict
        then query +:+ " ON CONFLICT " +:+ ToString onConflict else query in
      let query :=
        if truthy returning
        then query +:+ " RETURNING " +:+ ToString returning else query in
      Return (Some (query, List.concat values))
  end.

Definition insert (J : Json.builtin) (newDate : value -> value) (d : driver)
    (models : list (string * value)) (tableName : string)
    (data options : value) : io value :=
  with_client d "Insert failed: "
    (statement ←
       MongoAdapter.lift
         (insert_statement J newDate models tableName data options);
     match statement with
     | None => mret (VArr [])
     | Some (text, values) => send d text values
     end).

End CockroachDBCrud.

(** ** adapters/ArangoAdapter: the operations of an update *)

Module ArangoUpdate.
Import Members ArangoAdapter.

(** What [operations] holds under a key: a plain value, or an [aql]
    fragment. *)
Inductive operation : Type :=
| Plain (v : value)
| Fragment (q : aql).

(** [Object.keys(value)[0]], which is undefined for an object without
    keys, and [value[operator]]. *)
Definition first_operator (value : value) : option string * Js.value :=
  match Object_entries value with
  | Return ((operator, _) :: _) => (Some operator, prop value operator)
  | _ => (None, prop value "undefined")
  end.

Definition update_step (entry : string * value)
    (operations : list (string * operation)) : list (string * operation) :=
  let '(key, value) := entry in
  if String.eqb (typeof value) "object"
     && negb (if value is VNull then true else false)
  then
    let '(operator, operand) := first_operator value in
    match operator with
    | Some operator =>
        let doc_key := [Text "doc."; Bind (VStr key)] in
        if String.eqb operator "$set"
        then assoc_set key (Plain operand) operations
        else if String.eqb operator "$unset"
        then assoc_set key (Plain VNull) operations
        else if String.eqb operator "$inc"
        then assoc_set key
               (Fragment (doc_key ++ [Text " + "; Bind operand])) operations
        else if String.eqb operator "$push"
        then assoc_set key
               (Fragment ([Text "APPEND("] ++ doc_key ++
                          [Text ", "; Bind operand; Text ")"])) operations
        else if String.eqb operator "$pull"
        then assoc_set key
               (Fragment ([Text "REMOVE_VALUES("] ++ doc_key ++
                          [Text ", "; Bind operand; Text ")"])) operations
        else operations
    | None => operations
    end
  else assoc_set key (Plain value) operations.

Fixpoint update_loop (entries : list (string * value))
    (operations : list (string * operation)) : list (string * operation) :=
  match entries with
  | [] => operations
  | entry :: rest => update_loop rest (update_step entry operations)
  end.

Definition _buildUpdateOperations (update : value)
  : completion (list (string * operation)) :=
  entries ← Object_entries update;
  mret (update_loop entries []).

(** The operators of the [switch]. *)
Definition update_operators : list string :=
  ["$set"; "$unset"; "$inc"; "$push"; "$pull"].

(** The values that the loop passes over: an array, and an object that
    has no key or whose first key is none of the five. *)
Definition passed_over (v : value) : bool :=
  String.eqb (typeof v) "object"
  && negb (if v is VNull then true else false)
  && match (first_operator v).1 with
     | Some operator => negb (existsb (String.eqb operator) update_operators)
     | None => true
     end.

End ArangoUpdate.

(** ** adapters/ElasticsearchAdapter: the clauses of a filter *)

Module ElasticsearchAdapter.

(** [operatorMap] is an object literal: a lookup of a name that is not
    among its keys finds what [Object.prototype] has under it. *)
Definition Object_prototype : list string :=
  ["constructor"; "__proto__"; "hasOwnProperty"; "isPrototypeOf";
   "propertyIsEnumerable"; "toString"; "toLocaleString"; "valueOf";
   "__defineGetter__"; "__defineSetter__"; "__lookupGetter__";
   "__lookupSetter__"].

(** What [_buildFilterClause] returns: a clause, or the member of
    [Object.prototype] that the operator names. *)
Inductive clause : Type :=
| Clause (v : value)
| Inherited (name : string).

Definition term (field : string) (value : value) : Js.value :=
  VObj [("term", VObj [(field, value)])].

Definition range (field bound : string) (value : value) : Js.value :=
  VObj [("range", VObj [(field, VObj [(bound, value)])])].

Definition operatorMap (field : string) (value : value)
  : list (string * Js.value) :=
  [ ("$eq", term field value);
    ("$ne", VObj [("bool", VObj [("must_not", term field value)])]);
    ("$gt", range field "gt" value);
    ("$gte", range field "gte" value);
    ("$lt", range field "lt" value);
    ("$lte", range field "lte" value);
    ("$in", VObj [("terms", VObj [(field, value)])]);
    ("$nin", VObj [("bool",
                    VObj [("must_not",
                           VObj [("terms", VObj [(field, value)])])])]) ].

Definition _buildFilterClause (field operator : string) (value : value)
  : clause :=
  match assoc operator (operatorMap field value) with
  | Some c => if truthy c then Clause c else Clause (term field value)
  | None =>
      if existsb (String.eqb operator) Object_prototype
      then Inherited operator
      else Clause (term field value)
  end.

Fixpoint filter_conditions (field : string)
    (conditions : list (string * value)) (clauses : list clause)
  : list clause :=
  match conditions with
  | [] => clauses
  | (operator, value) :: rest =>
      filter_conditions field rest
        (clauses ++ [_buildFilterClause field operator value])
  end.

Fixpoint filter_loop (entries : list (string * value))
    (clauses : list clause) : completion (list clause) :=
  match entries with
  | [] => Return clauses
  | (field, conditions) :: rest =>
      if String.eqb (typeof conditions) "object"
      then
        operators ← Object_entries conditions;
        filter_loop rest (filter_conditions field operators clauses)
      else
        filter_loop rest (clauses ++ [Clause (term field conditions)])
  end.

Definition _buildFilterClauses (filter : value) : completion (list clause) :=
  entries ← Object_entries filter;
  filter_loop entries [].

End ElasticsearchAdapter.

(** * What the specification asks, as predicates on the code *)

Module Statements.
Import ConfigValidator DatabaseFactory UniversalORM Driver.

(** What the specification asks of a config that lacks required fields:
    a [ConfigError] that names every one of them. *)
Definition names_every_missing_field (type : string) (config : value)
    (o : orm) : Prop :=
  forall fields,
    assoc (toLowerCase type) requiredFields = Some fields ->
    missing config fields <> [] ->
    exists e,
      (connect type config o).1 = Throw e /\
      name e = "ConfigError" /\
      forall field, In field (missing config fields) ->
                    includes (message e) field = true.


(** What the specification asks of [closeAll()]: [close()] is called on
    every cached instance; its promise settles after all of theirs; any
    failure is part of the error it rejects with; and the cache is
    empty afterwards. *)
Definition closes_all_and_aggregates (close : ref -> promise value)
    (o : orm) : Prop :=
  let '(called, p, o') := closeAll close o in
  called = Map_values (connections o) /\
  (forall r, In r called -> (settled_at (close r) <= settled_at p)%nat) /\
  (forall r e, In r called -> outcome (close r) = Throw e ->
     exists e', outcome p = Throw e' /\
                includes (message e') (message e) = true) /\
  connections o' = [].

(** What the specification asks of a [transaction] method, for the class
    [cls] of the error it rethrows. With a driver none of whose calls
    fails: when the callback returns, the method commits after it and
    returns its result; when the callback throws, the method rolls back
    after it and throws an error of class [cls] that carries the message.
    And the last call is the release, also when the rollback fails. *)
Definition transaction_contract (cls : string)
    (transaction : driver -> io value -> io value) : Prop :=
  (forall d t v, all_ok d ->
     exists pre post,
       transaction d (t, Return v) = (pre ++ t ++ post, Return v) /\
       existsb is_commit post = true) /\
  (forall d t e, all_ok d ->
     exists pre post msg,
       transaction d (t, Throw e) = (pre ++ t ++ post, Throw (mkError cls msg)) /\
       includes msg (message e) = true /\
       existsb is_rollback post = true) /\
  (forall d cb,
     (forall c, is_rollback c = false -> exists v, d c = Return v) ->
     exists c,
       last (trace (transaction d cb)) = Some c /\ is_release c = true).

(** The calls that CockroachDBAdapter's [transaction] makes before the
    callback, when none fails. *)
Definition cockroach_prelude (options : value) : list call :=
  [Call "pool" "connect" []; Call "client" "query" [VStr "BEGIN"]] ++
  match get options "priority" with
  | VStr priority =>
      if String.eqb priority "high"
      then [Call "client" "query" [VStr "SET TRANSACTION PRIORITY HIGH"]]
      else []
  | _ => []
  end.

(** *** Predicates

    The conditions of a predicate, as the compilers of CockroachDBAdapter
    and ArangoAdapter visit them: for each field an object (or an array)
    gives one condition per entry, with the entry's key as the operator;
    any other value gives one equality, with no operator. *)
Abbreviation term := (string * option string * value)%type.

Definition operand (t : term) : value := t.2.

Definition entries_of (v : value) : list (string * value) :=
  match v with
  | VObj props => props
  | VArr items => indexed 0 items
  | _ => []
  end.

Definition is_operator_map (v : value) : bool :=
  String.eqb (typeof v) "object"
  && negb (if v is VNull then true else false).

Definition terms_of_entry (entry : string * value) : list term :=
  let '(key, v) := entry in
  if is_operator_map v
  then List.map (fun '(operator, operand) => (key, Some operator, operand))
                (entries_of v)
  else [(key, None, v)].

Definition terms_of (entries : list (string * value)) : list term :=
  flat_map terms_of_entry entries.

(** A predicate without its operands: the fields and the operators. *)
Definition shape (ts : list term) : list (string * option string) :=
  List.map fst ts.

(** The first operator of a predicate that a backend does not have. *)
Fixpoint first_unknown (recognized : list string)
    (fields : list (string * option string)) : option string :=
  match fields with
  | [] => None
  | (_, None) :: rest => first_unknown recognized rest
  | (_, Some operator) :: rest =>
      if existsb (String.eqb operator) recognized
      then first_unknown recognized rest
      else Some operator
  end.

(** What the specification asks of a compiler about the operators it does
    not recognize: a predicate that uses one is refused, with one of the
    two errors of the taxonomy. *)
Definition rejects_unrecognized {A} (recognized : list string)
    (compile : value -> completion A) : Prop :=
  forall query entries key operator operand,
    Object_entries query = Return entries ->
    In (key, Some operator, operand) (terms_of entries) ->
    ~ In operator recognized ->
    exists e,
      compile query = Throw e /\
      (name e = "QueryCompileError" \/ name e = "UnsupportedOperatorError").

(** The text of the WHERE clause of CockroachDBAdapter, from the fields
    and the operators alone: the conditions, numbered from [paramCount]. *)
Fixpoint where_conditions (fields : list (string * option string))
    (paramCount : nat) : completion (list string) :=
  match fields with
  | [] => Return []
  | (key, operator) :: rest =>
      condition ←
        match operator with
        | None =>
            Return (key +:+ " = " +:+ CockroachDBAdapter.placeholder paramCount)
        | Some operator =>
            match assoc operator CockroachDBAdapter.operators with
            | Some condition =>
                Return (condition key (CockroachDBAdapter.placeholder paramCount))
            | None => Throw (Error ("Unknown operator: " +:+ operator))
            end
        end;
      conditions ← where_conditions rest (S paramCount);
      mret (condition :: conditions)
  end.

(** The text of a compiled query, without its bindings. *)
Definition text_of (compiled : completion (string * list value))
  : completion string :=
  fst <$> compiled.

(** What the specification asks of the options of a query: [limit] and
    [offset] are bindings, and the text does not vary with them. *)
Definition options_out_of_band : Prop :=
  forall tableName query select orderBy forUpdate
         limit offset text values limit' offset' text' values',
    CockroachDBAdapter._buildSelectQuery
      tableName query select orderBy limit offset forUpdate
      = Return (text, values) ->
    CockroachDBAdapter._buildSelectQuery
      tableName query select orderBy limit' offset' forUpdate
      = Return (text', values') ->
    truthy limit = truthy limit' ->
    truthy offset = truthy offset' ->
    text = text' /\
    (truthy limit = true -> In limit values) /\
    (truthy offset = true -> In offset values).

(** What the specification asks of [addAdapter]: after it, [connect] with
    the name dispatches to the class, whatever the facade holds. *)
Definition dispatches_to_added (key : string -> value -> string) : Prop :=
  forall type Ctor config o adapters',
    addAdapter (factory o) type Ctor = Return adapters' ->
    validate type config = Return tt ->
    exists r o1,
      connect_with key type config
        (mkOrm (connections o) adapters' (objects o)) = (Return r, o1) /\
      class <$> deref (objects o1) r = Some Ctor.

End Statements.

(** * Properties of the facade and of the factory *)

Module FacadeProperties.
Import ConfigValidator DatabaseFactory UniversalORM Statements.

Lemma assoc_set_eq {A} k (a : A) l : assoc k (assoc_set k a l) = Some a.
Proof.
  induction l as [|[k' a'] l IH]; simpl.
  - by rewrite String.eqb_refl.
  - destruct (String.eqb k k') eqn:E; simpl; rewrite ?String.eqb_refl, ?E; done.
Qed.

Lemma assoc_set_ne {A} k k' (a : A) l :
  k <> k' -> assoc k' (assoc_set k a l) = assoc k' l.
Proof.
  intros Hne. induction l as [|[k0 a0] l IH]; simpl.
  - destruct (String.eqb k' k) eqn:E; [|done].
    apply String.eqb_eq in E. congruence.
  - destruct (String.eqb k k0) eqn:E; simpl.
    + apply String.eqb_eq in E. subst k0.
      destruct (String.eqb k' k) eqn:E'; [|done].
      apply String.eqb_eq in E'. congruence.
    + by rewrite IH.
Qed.

Lemma check_fields_missing config fields :
  check_fields config fields =
  match missing config fields with
  | [] => Return tt
  | field :: _ => Throw (Error ("Missing required field: " +:+ field))
  end.
Proof.
  induction fields as [|f fields IH]; simpl; [done|].
  destruct (negb (truthy (get config f))); simpl; done.
Qed.

Lemma connect_with_cases key type config o :
  connect_with key type config o =
  match validate type config with
  | Throw e =>
      (Throw (DatabaseError ("Connection failed: " +:+ message e)), o)
  | Return _ =>
      match Map_get (key type config) (connections o) with
      | Some c => (Return c, o)
      | None =>
          match factory o !! toLowerCase type with
          | None =>
              (Throw (DatabaseError
                        ("Connection failed: " +:+
                         ("Unsupported database type: " +:+ type))), o)
          | Some C =>
              (Return (length (objects o)),
               mkOrm (Map_set (key type config) (length (objects o))
                              (connections o))
                     (factory o) (objects o ++ [mkInstance C config]))
          end
      end
  end.
Proof.
  unfold connect_with, createDatabase, new.
  destruct (validate type config); [|done].
  destruct (Map_get _ _); [done|].
  destruct (factory o !! toLowerCase type); [done|].
  by destruct o.
Qed.

(** C2. A second [connect] with the same type and config returns the very
    object that the first returned, and allocates nothing. The first call
    itself returns the cached object when the key has an entry, and only
    otherwise has the factory construct one, a new object of the class
    registered for the type, which it registers under the key. *)
Theorem connect_twice_same_instance
    (key : string -> value -> string) type config o r o1 :
  connect_with key type config o = (Return r, o1) ->
  connect_with key type config o1 = (Return r, o1) /\
  match Map_get (key type config) (connections o) with
  | Some cached => r = cached /\ o1 = o
  | None =>
      deref (objects o) r = None /\
      exists AdapterClass,
        factory o !! toLowerCase type = Some AdapterClass /\
        objects o1 = objects o ++ [mkInstance AdapterClass config] /\
        deref (objects o1) r = Some (mkInstance AdapterClass config) /\
        connections o1 = Map_set (key type config) r (connections o)
  end.
Proof.
  rewrite !connect_with_cases.
  destruct (validate type config) eqn:Hv; [|done].
  destruct (Map_get (key type config) (connections o)) as [c|] eqn:Hget.
  - intros [= <- <-]. by rewrite Hget.
  - destruct (factory o !! toLowerCase type) as [C|] eqn:HC; [|done].
    intros [= <- <-]. simpl. unfold Map_get, Map_set.
    rewrite assoc_set_eq. split; [done|]. split.
    + unfold deref. apply nth_error_None. lia.
    + exists C. repeat split; try done.
      unfold deref. rewrite nth_error_app2; [|lia].
      by rewrite Nat.sub_diag.
Qed.

Lemma connect_twice_same_instance_witness :
  let config := VObj [("host", VStr "localhost"); ("port", VNum 6379)] in
  let o1 := mkOrm [("redis-undefined", 0%nat)] adapters0
                  [mkInstance RedisAdapter config] in
  connect "redis" config init = (Return 0%nat, o1) /\
  connect "redis" config o1 = (Return 0%nat, o1).
Proof.
  intros config o1.
  assert (H : connect "redis" config init = (Return 0%nat, o1))
    by (vm_compute; reflexivity).
  split; [exact H|].
  exact (proj1 (connect_twice_same_instance connectionKey _ _ _ _ _ H)).
Defined.


(** C3. The cache key does not tell logical connections apart. With the
    key of index.js two redis servers on different hosts and ports share
    the key [redis-undefined], so the second [connect] returns the adapter
    of the first server; with the key of index.ts one database name on two
    hosts still gives one key; and one connection written with two letter
    cases of its type gives two keys, although the factory builds the same
    class for both. *)
Theorem connect_key_collisions :
  let a := VObj [("host", VStr "cache-a"); ("port", VNum 6379)] in
  let b := VObj [("host", VStr "cache-b"); ("port", VNum 6380)] in
  let p := VObj [("host", VStr "db1"); ("port", VNum 5432);
                 ("database", VStr "app"); ("user", VStr "u");
                 ("password", VStr "s")] in
  let q := VObj [("host", VStr "db2"); ("port", VNum 5432);
                 ("database", VStr "app"); ("user", VStr "u");
                 ("password", VStr "s")] in
  (exists o1,
     connect "redis" a init = (Return 0%nat, o1) /\
     connect "redis" b o1 = (Return 0%nat, o1) /\
     deref (objects o1) 0%nat = Some (mkInstance RedisAdapter a)) /\
  connectionKey "redis" a = "redis-undefined" /\
  connectionKey "redis" b = "redis-undefined" /\
  (exists o1,
     connect_ts "postgres" p init = (Return 0%nat, o1) /\
     connect_ts "postgres" q o1 = (Return 0%nat, o1) /\
     deref (objects o1) 0%nat = Some (mkInstance PostgresAdapter p)) /\
  connectionKey_ts "postgres" p = connectionKey_ts "postgres" q /\
  connectionKey "Redis" a <> connectionKey "redis" a /\
  (exists o1 o2,
     connect "Redis" a init = (Return 0%nat, o1) /\
     connect "redis" a o1 = (Return 1%nat, o2) /\
     class <$> deref (objects o2) 0%nat = class <$> deref (objects o2) 1%nat).
Proof.
  intros a b p q.
  split; [eexists; by vm_compute|].
  split; [by vm_compute|]. split; [by vm_compute|].
  split; [eexists; by vm_compute|].
  split; [by vm_compute|]. split; [by vm_compute|].
  eexists _, _. by vm_compute.
Qed.

(** C7 (the claim as the specification words it, refuted). A redis config
    with neither host nor port is rejected with a [DatabaseError] whose
    message names [host] and not [port]. *)
Lemma connect_redis_names_host_only :
  ~ names_every_missing_field "redis" (VObj []) init /\
  missing (VObj []) ["host"; "port"] = ["host"; "port"] /\
  (connect "redis" (VObj []) init).1 =
    Throw (DatabaseError "Connection failed: Missing required field: host").
Proof.
  split; [|split; by vm_compute].
  intros H.
  destruct (H ["host"; "port"]) as (e & He & _ & Hall);
    [by vm_compute | by vm_compute |].
  vm_compute in He. injection He as <-.
  specialize (Hall "port"). vm_compute in Hall.
  assert (false = true) by (apply Hall; right; left; reflexivity).
  discriminate.
Qed.

(** C7 (amended). When required fields are missing, [connect] fails with a
    [DatabaseError] whose message names the first of them in the order of
    the table, and no other; nothing is constructed or cached. *)
Theorem connect_names_first_missing_field
    (key : string -> value -> string) type config o fields field rest :
  type <> "" ->
  truthy config = true ->
  typeof config = "object" ->
  assoc (toLowerCase type) requiredFields = Some fields ->
  missing config fields = field :: rest ->
  connect_with key type config o =
    (Throw (DatabaseError
              ("Connection failed: " +:+
               ("Missing required field: " +:+ field))), o).
Proof.
  intros Htype Htruthy Hobj Hfields Hmissing.
  rewrite connect_with_cases. unfold validate.
  destruct (String.eqb type "") eqn:E;
    [apply String.eqb_eq in E; done|].
  rewrite Htruthy, Hobj, Hfields. simpl.
  by rewrite check_fields_missing, Hmissing.
Qed.

Lemma connect_names_first_missing_field_witness :
  connect "Postgres" (VObj [("host", VStr "db1"); ("user", VStr "u")]) init =
    (Throw (DatabaseError "Connection failed: Missing required field: port"),
     init).
Proof.
  apply (connect_names_first_missing_field connectionKey "Postgres" _ init
           ["host"; "port"; "database"; "user"; "password"]
           "port" ["database"; "password"]);
    [discriminate | reflexivity | reflexivity | reflexivity | reflexivity].
Defined.

(** C9 (the claim as the specification words it, refuted). [connect]
    looks into the cache before it asks the factory: with a connection
    cached under the key, [connect] after [addAdapter("redis", MyRedis)]
    returns the cached instance, which the built-in RedisAdapter
    constructed, and constructs nothing. *)
Lemma connect_after_addAdapter_returns_cached :
  let config := VObj [("host", VStr "localhost"); ("port", VNum 6379)] in
  let o := (connect "redis" config init).2 in
  let adapters' := <["redis" := Custom "MyRedis"]> (factory o) in
  let o' := mkOrm (connections o) adapters' (objects o) in
  ~ dispatches_to_added connectionKey /\
  addAdapter (factory o) "redis" (Custom "MyRedis") = Return adapters' /\
  connect "redis" config o' = (Return 0%nat, o') /\
  deref (objects o') 0%nat = Some (mkInstance RedisAdapter config).
Proof.
  intros config o adapters' o'.
  assert (Hadd : addAdapter (factory o) "redis" (Custom "MyRedis")
                 = Return adapters') by reflexivity.
  assert (Hconnect : connect "redis" config o' = (Return 0%nat, o')).
  { unfold connect. rewrite connect_with_cases. reflexivity. }
  split; [|done].
  intros H.
  destruct (H "redis" (Custom "MyRedis") config o adapters' Hadd eq_refl)
    as (r & o1 & Hrun & Hclass).
  change (connect "redis" config o' = (Return r, o1)) in Hrun.
  rewrite Hconnect in Hrun. injection Hrun as <- <-.
  discriminate Hclass.
Qed.

(** C9 (amended). On a table that has the prototype it was made with,
    after [addAdapter(type, Ctor)], which never fails for a non-empty
    name, whatever was registered under it before, [createDatabase] with
    a name of the same lower case allocates a new instance of [Ctor]; so
    does [connect], when the config passes validation and the cache has no
    entry under the key. When the cache has one, [connect] returns the
    cached instance and allocates nothing. *)
Theorem addAdapter_then_create type type' Ctor adapters config h :
  adapters !! "__proto__" = None ->
  type <> "" ->
  toLowerCase type' = toLowerCase type ->
  exists adapters',
    addAdapter adapters type Ctor = Return adapters' /\
    adapters' !! toLowerCase type = Some Ctor /\
    createDatabase adapters' type' config h =
      (Return (length h), h ++ [mkInstance Ctor config]) /\
    (forall (key : string -> value -> string) conns,
       validate type' config = Return tt ->
       Map_get (key type' config) conns = None ->
       exists r o1,
         connect_with key type' config (mkOrm conns adapters' h) =
           (Return r, o1) /\
         deref h r = None /\
         deref (objects o1) r = Some (mkInstance Ctor config)) /\
    (forall (key : string -> value -> string) conns cached,
       validate type' config = Return tt ->
       Map_get (key type' config) conns = Some cached ->
       connect_with key type' config (mkOrm conns adapters' h) =
         (Return cached, mkOrm conns adapters' h)).
Proof.
  intros _ Htype Hlower.
  exists (<[toLowerCase type := Ctor]> adapters).
  assert (Hlook : (<[toLowerCase type := Ctor]> adapters) !! toLowerCase type'
                  = Some Ctor) by (rewrite Hlower; apply lookup_insert_eq).
  split.
  { unfold addAdapter. destruct (String.eqb type "") eqn:E; [|done].
    apply String.eqb_eq in E. done. }
  split; [apply lookup_insert_eq|].
  split.
  { unfold createDatabase, new. by rewrite Hlook. }
  split.
  - intros key conns Hv Hget.
    rewrite connect_with_cases. simpl. rewrite Hv, Hget, Hlook.
    eexists _, _. split; [done|]. simpl. unfold deref. split.
    + apply nth_error_None. lia.
    + rewrite nth_error_app2; [|lia]. by rewrite Nat.sub_diag.
  - intros key conns cached Hv Hget.
    rewrite connect_with_cases. simpl. by rewrite Hv, Hget.
Qed.

Lemma addAdapter_then_create_witness :
  exists adapters',
    addAdapter adapters0 "Redis" (Custom "MyRedis") = Return adapters' /\
    adapters' !! "redis" = Some (Custom "MyRedis") /\
    createDatabase adapters' "REDIS" (VObj [("host", VStr "h")]) [] =
      (Return 0%nat, [mkInstance (Custom "MyRedis") (VObj [("host", VStr "h")])]).
Proof.
  destruct (addAdapter_then_create "Redis" "REDIS" (Custom "MyRedis") adapters0
              (VObj [("host", VStr "h")]) [])
    as (adapters' & Hadd & Hlook & Hcreate & _);
    [reflexivity | discriminate | reflexivity |].
  exists adapters'. exact (conj Hadd (conj Hlook Hcreate)).
Defined.

Lemma first_rejection_None {A} (ps : list (promise A)) :
  first_rejection ps = None ->
  forall p, In p ps -> exists a, outcome p = Return a.
Proof.
  induction ps as [|p0 ps IH]; simpl; [done|].
  destruct (outcome p0) eqn:E.
  - intros H p [<-|Hin]; eauto.
  - destruct (first_rejection ps) as [[t e']|]; [|done].
    by destruct (Nat.ltb t (settled_at p0)).
Qed.

Lemma first_rejection_Some {A} (ps : list (promise A)) t e :
  first_rejection ps = Some (t, e) ->
  (exists p, In p ps /\ outcome p = Throw e /\ settled_at p = t) /\
  (forall p e', In p ps -> outcome p = Throw e' -> (t <= settled_at p)%nat).
Proof.
  revert t e. induction ps as [|p0 ps IH]; simpl; [done|].
  intros t e. destruct (outcome p0) eqn:E.
  - intros H. destruct (IH _ _ H) as [(p & Hin & Hp) Hmin]. split.
    + exists p. auto.
    + intros p' e' [<-|Hin'] Hp'; [congruence|]. eauto.
  - destruct (first_rejection ps) as [[t1 e1]|] eqn:Hrest.
    + destruct (IH _ _ eq_refl) as [(p & Hin & Hp) Hmin].
      destruct (Nat.ltb t1 (settled_at p0)) eqn:Hlt.
      * apply Nat.ltb_lt in Hlt. intros [= <- <-]. split.
        -- exists p. auto.
        -- intros p' e' [<-|Hin'] Hp'; [lia|]. eauto.
      * apply Nat.ltb_ge in Hlt. intros [= <- <-]. split.
        -- exists p0. auto.
        -- intros p' e' [<-|Hin'] Hp'; [lia|].
           specialize (Hmin _ _ Hin' Hp'). lia.
    + intros [= <- <-]. split.
      * exists p0. auto.
      * intros p' e' [<-|Hin'] Hp'; [lia|].
        destruct (first_rejection_None _ Hrest _ Hin') as [a Ha]. congruence.
Qed.

Lemma latest_ge {A} (ps : list (promise A)) p :
  In p ps -> (settled_at p <= latest ps)%nat.
Proof.
  unfold latest. induction ps as [|p0 ps IH]; simpl; [done|].
  intros [<-|Hin]; [lia|]. specialize (IH Hin). lia.
Qed.

(** C6 (the claim as the specification words it, refuted). Two cached
    connections whose [close()] rejects, the first at time 1 and the
    second at time 5: [closeAll()] rejects at time 1, with the first
    reason alone, and the cache keeps both entries. *)
Lemma closeAll_rejects_early_and_keeps_cache :
  let o := mkOrm [("redis-a", 0%nat); ("mongodb-b", 1%nat)] adapters0
                 [mkInstance RedisAdapter (VObj []);
                  mkInstance MongoAdapter (VObj [])] in
  let close (r : ref) :=
    if Nat.eqb r 0 then mkPromise 1 (Throw (DatabaseError "Redis close failed: a"))
    else mkPromise 5 (Throw (DatabaseError "Close failed: b")) in
  ~ closes_all_and_aggregates close o /\
  closeAll close o =
    ([0%nat; 1%nat],
     @mkPromise unit 1 (Throw (DatabaseError "Redis close failed: a")), o).
Proof.
  intros o close. split; [|by vm_compute].
  unfold closes_all_and_aggregates.
  replace (closeAll close o) with
    ([0%nat; 1%nat],
     @mkPromise unit 1 (Throw (DatabaseError "Redis close failed: a")), o)
    by (by vm_compute).
  intros (_ & _ & _ & Hclear). discriminate Hclear.
Qed.

(** C6 (amended). [closeAll()] calls [close()] on every cached instance,
    in the order of the cache. When none of the promises rejects, it is
    fulfilled once all of them are and the cache is emptied. When some
    reject, it rejects when the first of them does, with that one's reason
    alone, and the facade is left as it was. *)
Theorem closeAll_first_rejection (close : ref -> promise value) (o : orm) :
  let '(called, p, o') := closeAll close o in
  called = Map_values (connections o) /\
  match first_rejection (List.map close called) with
  | None =>
      outcome p = Return tt /\
      (forall r, In r called -> (settled_at (close r) <= settled_at p)%nat) /\
      o' = mkOrm [] (factory o) (objects o)
  | Some (t, e) =>
      outcome p = Throw e /\ settled_at p = t /\ o' = o /\
      (exists r, In r called /\ outcome (close r) = Throw e /\
                 settled_at (close r) = t) /\
      (forall r e', In r called -> outcome (close r) = Throw e' ->
                    (t <= settled_at (close r))%nat)
  end.
Proof.
  unfold closeAll, Promise_all.
  destruct (first_rejection (List.map close (Map_values (connections o))))
    as [[t e]|] eqn:Hfirst; simpl.
  - split; [done|]. rewrite Hfirst.
    destruct (first_rejection_Some _ _ _ Hfirst) as [(p & Hin & Hp & Ht) Hmin].
    apply in_map_iff in Hin as (r & <- & Hr).
    repeat split; try done.
    + by exists r.
    + intros r' e' Hr' He'. eapply Hmin; [|exact He'].
      by apply in_map.
  - split; [done|]. rewrite Hfirst. repeat split.
    intros r Hr. apply (latest_ge (List.map close _) (close r)).
    by apply in_map.
Qed.

Lemma closeAll_first_rejection_witness :
  let o := mkOrm [("redis-a", 0%nat); ("mongodb-b", 1%nat)] adapters0
                 [mkInstance RedisAdapter (VObj []);
                  mkInstance MongoAdapter (VObj [])] in
  let close (r : ref) :=
    if Nat.eqb r 0 then mkPromise 2 (Return VUndefined)
    else mkPromise 7 (Throw (DatabaseError "Close failed: b")) in
  (closeAll close o).1.1 = [0%nat; 1%nat] /\
  outcome (closeAll close o).1.2 = Throw (DatabaseError "Close failed: b") /\
  settled_at (closeAll close o).1.2 = 7%nat /\
  (closeAll close o).2 = o.
Proof.
  intros o close.
  pose proof (closeAll_first_rejection close o) as H.
  destruct (closeAll close o) as [[called p] o'] eqn:E.
  destruct H as [Hcalled H]. subst called.
  change (first_rejection (List.map close (Map_values (connections o))))
    with (Some (7%nat, DatabaseError "Close failed: b")) in H.
  destruct H as (Hout & Hat & Ho & _).
  repeat split; done.
Defined.

End FacadeProperties.

(** * Properties of the adapters' transactions *)

Module TransactionProperties.
Import Driver Statements.

Lemma prefix_refl s : String.prefix s s = true.
Proof.
  induction s as [|c s IH]; simpl; [done|].
  destruct (Ascii.ascii_dec c c); done.
Qed.

Lemma includes_append_r a b : includes (a +:+ b) b = true.
Proof.
  induction a as [|c a IH]; simpl.
  - destruct b; simpl; [done|]. rewrite prefix_refl.
    destruct (Ascii.ascii_dec a a); done.
  - rewrite IH. apply orb_true_r.
Qed.

Ltac run :=
  unfold MongoAdapter.transaction, CockroachDBAdapter.transaction,
    RedisAdapter.transaction,
    invoke, try_finally, try_catch, throw, trace, result,
    mbind, io_bind, mret, io_ret;
  simpl.

(** Take the answers of a driver [d] that does not fail. *)
Ltac answers_ok d Hok :=
  repeat match goal with
         | |- context [d ?c] =>
             let v := fresh "v" in
             let E := fresh "E" in
             destruct (Hok c) as [v E]; rewrite E; simpl
         end.

(** The same, of a driver that may fail to roll back only. *)
Ltac answers_but_rollback d Hok :=
  repeat match goal with
         | |- context [d ?c] =>
             let v := fresh "v" in
             let E := fresh "E" in
             assert (E : exists v, d c = Return v) by (apply Hok; reflexivity);
             destruct E as [v E]; rewrite E; simpl
         end.

(** Take the answers of any driver [d], case by case. *)
Ltac answers d :=
  repeat match goal with
         | |- context [d ?c] =>
             let E := fresh "E" in
             destruct (d c) eqn:E; simpl
         end.

(** The cases of [options] and of its [priority]. *)
Ltac priority options :=
  let s := fresh "s" in
  destruct options; simpl; try done;
  try (destruct (assoc "priority" _) as [[| | | |s| |]|]; simpl;
       try (destruct (String.eqb s "high"); simpl)).

Lemma mongo_contract :
  transaction_contract "DatabaseError" MongoAdapter.transaction.
Proof.
  split; [|split].
  - intros d t v Hok. run. answers_ok d Hok.
    exists [Call "connection" "startSession" [];
            Call "session" "startTransaction" []],
           [Call "session" "commitTransaction" [];
            Call "session" "endSession" []].
    split; [|done]. simpl. by rewrite <- app_assoc.
  - intros d t e Hok. run. answers_ok d Hok.
    exists [Call "connection" "startSession" [];
            Call "session" "startTransaction" []],
           [Call "session" "abortTransaction" [];
            Call "session" "endSession" []],
           ("Transaction failed: " +:+ message e).
    split; [|split; [apply includes_append_r|done]].
    simpl. by rewrite <- !app_assoc.
  - intros d [t [v|e]] Hok; run; answers_but_rollback d Hok.
    + eexists. rewrite !app_comm_cons, last_snoc. done.
    + destruct (d (Call "session" "abortTransaction" [])); simpl;
        eexists; rewrite ?app_nil_r, !app_comm_cons, last_snoc; done.
Qed.

Lemma mongo_returns d t v :
  all_ok d ->
  MongoAdapter.transaction d (t, Return v) =
    ([Call "connection" "startSession" [];
      Call "session" "startTransaction" []] ++ t ++
     [Call "session" "commitTransaction" [];
      Call "session" "endSession" []],
     Return v).
Proof.
  intros Hok. run. answers_ok d Hok. by rewrite <- app_assoc.
Qed.

Lemma mongo_throws d t e :
  all_ok d ->
  MongoAdapter.transaction d (t, Throw e) =
    ([Call "connection" "startSession" [];
      Call "session" "startTransaction" []] ++ t ++
     [Call "session" "abortTransaction" [];
      Call "session" "endSession" []],
     Throw (DatabaseError ("Transaction failed: " +:+ message e))).
Proof.
  intros Hok. run. answers_ok d Hok. by rewrite <- !app_assoc.
Qed.

Lemma cockroach_returns d t v options :
  options <> VNull ->
  all_ok d ->
  CockroachDBAdapter.transaction d (t, Return v) options =
    (cockroach_prelude options ++ t ++
     [Call "client" "query" [VStr "COMMIT"]; Call "client" "release" []],
     Return v).
Proof.
  intros Hnull Hok. unfold cockroach_prelude. run.
  priority options; answers_ok d Hok; by rewrite <- app_assoc.
Qed.

Lemma cockroach_throws d t e options :
  options <> VNull ->
  all_ok d ->
  CockroachDBAdapter.transaction d (t, Throw e) options =
    (cockroach_prelude options ++ t ++
     [Call "client" "query" [VStr "ROLLBACK"]; Call "client" "release" []],
     Throw (DatabaseError ("Transaction failed: " +:+ message e))).
Proof.
  intros Hnull Hok. unfold cockroach_prelude. run.
  priority options; answers_ok d Hok; by rewrite <- !app_assoc.
Qed.

(** Once the pool has given a client, the last call releases it. *)
Lemma cockroach_releases d callback options client :
  d (Call "pool" "connect" []) = Return client ->
  last (trace (CockroachDBAdapter.transaction d callback options)) =
    Some (Call "client" "release" []).
Proof.
  intros Hc. destruct callback as [t [v|e]]; run; rewrite Hc; simpl;
    priority options; answers d;
    rewrite ?app_nil_r, ?app_comm_cons, ?last_snoc; reflexivity.
Qed.

(** Once a session has started, the last call ends it. *)
Lemma mongo_releases d callback session :
  d (Call "connection" "startSession" []) = Return session ->
  last (trace (MongoAdapter.transaction d callback)) =
    Some (Call "session" "endSession" []).
Proof.
  intros Hs. destruct callback as [t [v|e]]; run; rewrite Hs; simpl;
    answers d; rewrite ?app_nil_r, ?app_comm_cons, ?last_snoc; reflexivity.
Qed.

Lemma cockroach_contract options :
  options <> VNull ->
  transaction_contract "DatabaseError"
    (fun d callback => CockroachDBAdapter.transaction d callback options).
Proof.
  intros Hnull. split; [|split].
  - intros d t v Hok. rewrite cockroach_returns by done.
    by eexists _, _.
  - intros d t e Hok. rewrite cockroach_throws by done.
    eexists _, _, _. split; [done|]. split; [apply includes_append_r|done].
  - intros d cb Hok.
    destruct (Hok (Call "pool" "connect" []) eq_refl) as [client Hc].
    rewrite (cockroach_releases _ _ _ _ Hc). by eexists.
Qed.

(** C1 (the claim as the specification words it, refuted). No adapter
    throws a [TransactionError]: MongoAdapter wraps the callback's error in
    a [DatabaseError]. RedisAdapter makes no call at all after a callback
    that throws, so nothing is rolled back, and after a callback that
    returns it returns what [multi.exec()] answers, not the callback's
    result. The method of the base class, which the adapters without one
    of their own have, throws before it calls back. *)
Lemma transaction_contract_fails :
  let d : driver := fun c =>
    if is_call "multi" "exec" c
    then Return (VArr [VArr [VNull; VStr "OK"]])
    else Return VUndefined in
  let queued := [Call "multi" "set" [VStr "k"; VStr "v"]] in
  ~ transaction_contract "TransactionError" MongoAdapter.transaction /\
  ~ transaction_contract "DatabaseError" RedisAdapter.transaction /\
  RedisAdapter.transaction d (queued, Throw (Error "boom")) =
    (Call "client" "multi" [] :: queued,
     Throw (DatabaseError "Redis transaction failed: boom")) /\
  RedisAdapter.transaction d (queued, Return (VNum 1)) =
    (Call "client" "multi" [] :: queued ++ [Call "multi" "exec" []],
     Return (VArr [VArr [VNull; VStr "OK"]])) /\
  result (MongoAdapter.transaction d (queued, Throw (Error "boom"))) =
    Throw (DatabaseError "Transaction failed: boom") /\
  BaseAdapter.transaction (queued, Return (VNum 1)) VUndefined =
    ([], Throw (Error "Not implemented")).
Proof.
  intros d queued.
  assert (Hok : all_ok d).
  { intros c. unfold d. destruct (is_call "multi" "exec" c); eauto. }
  split; [|split; [|by vm_compute]].
  - intros (_ & Hthrow & _).
    destruct (Hthrow d [] (Error "boom") Hok) as (pre & post & msg & H & _).
    apply (f_equal snd) in H. vm_compute in H. discriminate H.
  - intros (Hreturn & _).
    destruct (Hreturn d [] (VNum 1) Hok) as (pre & post & H & _).
    apply (f_equal snd) in H. vm_compute in H. discriminate H.
Qed.

(** C1 (amended). When no call of the driver fails, MongoAdapter and
    CockroachDBAdapter (for options that are not null, which it reads
    before it calls back) make exactly these calls, in this order: they
    acquire the session or the client and begin, run the callback, and
    then either commit, release and return the callback's result, or,
    after a callback that throws, roll back, release and throw a
    [DatabaseError] whose message is [Transaction failed: ] followed by the
    message of the callback's error. Once the session or the client is
    acquired, the last call releases it, whatever the options, the
    callback and the other calls do. So both keep the contract with
    [DatabaseError] as the class of the error rethrown. RedisAdapter runs
    the callback and then [multi.exec()], whose answer it returns, and
    wraps any error in a [DatabaseError], with no further call. *)
Theorem transaction_commit_rollback_release :
  (forall d t v,
     all_ok d ->
     MongoAdapter.transaction d (t, Return v) =
       ([Call "connection" "startSession" [];
         Call "session" "startTransaction" []] ++ t ++
        [Call "session" "commitTransaction" [];
         Call "session" "endSession" []],
        Return v)) /\
  (forall d t e,
     all_ok d ->
     MongoAdapter.transaction d (t, Throw e) =
       ([Call "connection" "startSession" [];
         Call "session" "startTransaction" []] ++ t ++
        [Call "session" "abortTransaction" [];
         Call "session" "endSession" []],
        Throw (DatabaseError ("Transaction failed: " +:+ message e)))) /\
  (forall d t v options,
     options <> VNull ->
     all_ok d ->
     CockroachDBAdapter.transaction d (t, Return v) options =
       (cockroach_prelude options ++ t ++
        [Call "client" "query" [VStr "COMMIT"]; Call "client" "release" []],
        Return v)) /\
  (forall d t e options,
     options <> VNull ->
     all_ok d ->
     CockroachDBAdapter.transaction d (t, Throw e) options =
       (cockroach_prelude options ++ t ++
        [Call "client" "query" [VStr "ROLLBACK"]; Call "client" "release" []],
        Throw (DatabaseError ("Transaction failed: " +:+ message e)))) /\
  (forall d callback session,
     d (Call "connection" "startSession" []) = Return session ->
     last (trace (MongoAdapter.transaction d callback)) =
       Some (Call "session" "endSession" [])) /\
  (forall d callback options client,
     d (Call "pool" "connect" []) = Return client ->
     last (trace (CockroachDBAdapter.transaction d callback options)) =
       Some (Call "client" "release" [])) /\
  transaction_contract "DatabaseError" MongoAdapter.transaction /\
  (forall options,
     options <> VNull ->
     transaction_contract "DatabaseError"
       (fun d callback => CockroachDBAdapter.transaction d callback options)) /\
  (forall d t v multi,
     d (Call "client" "multi" []) = Return multi ->
     RedisAdapter.transaction d (t, Return v) =
       (Call "client" "multi" [] :: t ++ [Call "multi" "exec" []],
        match d (Call "multi" "exec" []) with
        | Return replies => Return replies
        | Throw e =>
            Throw (DatabaseError ("Redis transaction failed: " +:+ message e))
        end)) /\
  (forall d t e multi,
     d (Call "client" "multi" []) = Return multi ->
     RedisAdapter.transaction d (t, Throw e) =
       (Call "client" "multi" [] :: t,
        Throw (DatabaseError ("Redis transaction failed: " +:+ message e)))).
Proof.
  split; [exact mongo_returns|].
  split; [exact mongo_throws|].
  split; [exact cockroach_returns|].
  split; [exact cockroach_throws|].
  split; [exact mongo_releases|].
  split; [exact cockroach_releases|].
  split; [exact mongo_contract|].
  split; [exact cockroach_contract|].
  split.
  - intros d t v multi Hm. run. rewrite Hm. simpl.
    destruct (d (Call "multi" "exec" [])); simpl; by rewrite ?app_nil_r.
  - intros d t e multi Hm. run. rewrite Hm. simpl. by rewrite app_nil_r.
Qed.

Lemma transaction_commit_rollback_release_witness :
  let d : driver := fun c =>
    if is_query "COMMIT" c then Throw (Error "restart transaction")
    else Return VUndefined in
  let ok : driver := fun _ => Return VUndefined in
  let insert :=
    [Call "client" "query" [VStr "INSERT INTO t VALUES ($1)"; VArr [VNum 1]]] in
  last (trace (CockroachDBAdapter.transaction d (insert, Return (VNum 1))
                 (VObj [("priority", VStr "high")]))) =
    Some (Call "client" "release" []) /\
  CockroachDBAdapter.transaction ok (insert, Throw (Error "boom"))
    (VObj [("priority", VStr "high")]) =
    ([Call "pool" "connect" []; Call "client" "query" [VStr "BEGIN"];
      Call "client" "query" [VStr "SET TRANSACTION PRIORITY HIGH"]] ++
     insert ++
     [Call "client" "query" [VStr "ROLLBACK"]; Call "client" "release" []],
     Throw (DatabaseError "Transaction failed: boom")).
Proof.
  intros d ok insert.
  destruct transaction_commit_rollback_release
    as (_ & _ & _ & Hthrows & _ & Hreleases & _).
  split.
  - exact (Hreleases d _ _ VUndefined eq_refl).
  - apply (Hthrows ok insert (Error "boom")); [discriminate|].
    intros c. by exists VUndefined.
Defined.

End TransactionProperties.

(** * Properties of [count] and [exists] *)

Module CountProperties.
Import Driver.




(** With the TypeScript MongoAdapter and a driver that counts three
    documents, [exists] is true; with none, false; both throw for a model
    that was not defined. *)
Example mongo_exists_runs :
  let countDocuments n : string -> value -> completion Z := fun _ _ => Return n in
  let exists_ n model :=
    result (Adapters.exists_ Adapters.TypeScript DatabaseFactory.MongoAdapter
              (countDocuments n) ["users"] model
              (VObj [("age", VObj [("$gt", VNum 18)])]) VUndefined) in
  exists_ 3 "users" = Return true /\
  exists_ 0 "users" = Return false /\
  exists_ 3 "orders" =
    Throw (DatabaseError
             "Exists operation failed: Count operation failed: Model orders not found").
Proof. by vm_compute. Qed.

End CountProperties.

(** * Properties of the query compilers *)

Module QueryProperties.
Import Statements.

Ltac unbind :=
  unfold mbind, completion_bind, mret, completion_ret, fmap, completion_fmap
    in *.

Lemma assoc_None_existsb {A} k (l : list (string * A)) :
  existsb (String.eqb k) (List.map fst l) =
  match assoc k l with Some _ => true | None => false end.
Proof.
  induction l as [|[k' a] l IH]; simpl; [done|].
  destruct (String.eqb k k'); simpl; done.
Qed.

Lemma Object_entries_operator_map v :
  is_operator_map v = true -> Object_entries v = Return (entries_of v).
Proof. by destruct v. Qed.

Section Cockroach.
Import CockroachDBAdapter.
#[local] Opaque operators.

Lemma where_conditions_app f1 f2 n :
  where_conditions (f1 ++ f2) n =
  cs1 ← where_conditions f1 n;
  cs2 ← where_conditions f2 (n + length f1);
  mret (cs1 ++ cs2).
Proof.
  revert n. induction f1 as [|[key op] f1 IH]; intros n; simpl.
  - rewrite Nat.add_0_r. unbind. by destruct (where_conditions f2 n).
  - rewrite IH. replace (n + S (length f1))%nat with (S n + length f1)%nat by lia.
    unbind.
    destruct op as [op|]; [destruct (assoc op operators)|]; try done;
      destruct (where_conditions f1 (S n)); try done;
      destruct (where_conditions f2 _); done.
Qed.

Lemma where_operators_spec key ops c :
  where_operators key ops c =
  cs ← where_conditions (List.map (fun o => (key, Some o.1)) ops) (paramCount c);
  mret (mkClause (conditions c ++ cs) (values c ++ List.map snd ops)
                 (paramCount c + length ops)).
Proof.
  revert c. induction ops as [|[op v] ops IH]; intros [cs vs n]; simpl.
  - unbind. by rewrite !app_nil_r, Nat.add_0_r.
  - unfold _buildOperatorCondition. unbind.
    destruct (assoc op operators) as [f|]; [|done].
    rewrite IH. simpl. unbind.
    destruct (where_conditions _ (S n)); [|done].
    by rewrite <- !app_assoc, Nat.add_succ_r.
Qed.

Lemma shape_terms_of_entry key v :
  is_operator_map v = true ->
  shape (terms_of_entry (key, v)) =
  List.map (fun o => (key, Some o.1)) (entries_of v).
Proof.
  intros H. unfold shape, terms_of_entry. rewrite H, List.map_map.
  apply List.map_ext. by intros [op x].
Qed.

Lemma operands_terms_of_entry key v :
  is_operator_map v = true ->
  List.map operand (terms_of_entry (key, v)) = List.map snd (entries_of v).
Proof.
  intros H. unfold terms_of_entry. rewrite H, List.map_map.
  apply List.map_ext. by intros [op x].
Qed.

Lemma where_entries_spec entries c :
  where_entries entries c =
  cs ← where_conditions (shape (terms_of entries)) (paramCount c);
  mret (mkClause (conditions c ++ cs)
                 (values c ++ List.map operand (terms_of entries))
                 (paramCount c + length (terms_of entries))).
Proof.
  revert c. induction entries as [|[key v] entries IH]; intros [cs vs n].
  - simpl. unbind. by rewrite !app_nil_r, Nat.add_0_r.
  - cbn [where_entries terms_of flat_map].
    fold (terms_of entries). unfold shape in *.
    rewrite !List.map_app, where_conditions_app, length_app, !length_map.
    fold (is_operator_map v).
    destruct (is_operator_map v) eqn:Hv.
    + rewrite (Object_entries_operator_map _ Hv).
      pose proof (shape_terms_of_entry key v Hv) as Hs. unfold shape in Hs.
      rewrite Hs, (operands_terms_of_entry key v Hv).
      change (operators ← Return (entries_of v);
              c' ← where_operators key operators (mkClause cs vs n);
              where_entries entries c')
        with (c' ← where_operators key (entries_of v) (mkClause cs vs n);
              where_entries entries c').
      rewrite where_operators_spec. simpl. rewrite Hv, !length_map. unbind.
      destruct (where_conditions _ n); [|done].
      rewrite IH. simpl. unbind.
      destruct (where_conditions _ _); [|done].
      by rewrite <- !app_assoc, Nat.add_assoc.
    + unfold terms_of_entry. rewrite Hv. simpl.
      rewrite IH. simpl. unbind.
      replace (n + 1)%nat with (S n) by lia.
      destruct (where_conditions _ _); [|done].
      by rewrite <- !app_assoc, Nat.add_succ_r.
Qed.

Lemma _buildWhereClause_spec query entries :
  Object_entries query = Return entries ->
  _buildWhereClause query =
  cs ← where_conditions (shape (terms_of entries)) 1;
  mret (String.concat " AND " cs, List.map operand (terms_of entries)).
Proof.
  intros H. unfold _buildWhereClause. rewrite H.
  change (entries0 ← Return entries;
          c ← where_entries entries0 (mkClause [] [] 1);
          mret (String.concat " AND " (conditions c), values c))
    with (c ← where_entries entries (mkClause [] [] 1);
          mret (String.concat " AND " (conditions c), values c)).
  rewrite where_entries_spec. simpl. unbind.
  by destruct (where_conditions _ 1).
Qed.

Lemma where_conditions_first_unknown fields n :
  match first_unknown (List.map fst operators) fields with
  | Some operator =>
      where_conditions fields n =
        Throw (Error ("Unknown operator: " +:+ operator))
  | None =>
      exists cs, where_conditions fields n = Return cs /\
                 length cs = length fields
  end.
Proof.
  revert n. induction fields as [|[key [op|]] fields IH]; intros n; simpl.
  - by exists [].
  - rewrite assoc_None_existsb.
    destruct (assoc op operators); [|done].
    specialize (IH (S n)). unbind.
    destruct (first_unknown _ fields).
    + by rewrite IH.
    + destruct IH as (cs & -> & Hlen). eexists. split; [done|]. simpl. lia.
  - specialize (IH (S n)). unbind.
    destruct (first_unknown _ fields).
    + by rewrite IH.
    + destruct IH as (cs & -> & Hlen). eexists. split; [done|]. simpl. lia.
Qed.

End Cockroach.

Section Arango.
Import ArangoAdapter.

Lemma _buildOperatorExpression_supported key operator v :
  if existsb (String.eqb operator) supported
  then exists c, _buildOperatorExpression key operator v = Return c
  else _buildOperatorExpression key operator v =
         Throw (Error ("Unknown operator: " +:+ operator)).
Proof.
  unfold _buildOperatorExpression, supported, existsb.
  repeat (destruct (String.eqb operator _); simpl; [by eauto|]).
  done.
Qed.

#[local] Opaque supported.

Lemma filter_operators_spec key ops acc :
  match first_unknown supported (List.map (fun o => (key, Some o.1)) ops) with
  | Some operator =>
      filter_operators key ops acc =
        Throw (Error ("Unknown operator: " +:+ operator))
  | None =>
      exists cs, filter_operators key ops acc = Return (acc ++ cs) /\
                 length cs = length ops
  end.
Proof.
  revert acc. induction ops as [|[op v] ops IH]; intros acc; simpl.
  - exists []. by rewrite app_nil_r.
  - pose proof (_buildOperatorExpression_supported key op v) as H.
    destruct (existsb (String.eqb op) supported).
    + destruct H as [c ->]. unbind. specialize (IH (acc ++ [c])).
      destruct (first_unknown _ _); [done|].
      destruct IH as (cs & -> & Hlen). exists (c :: cs).
      rewrite <- app_assoc. split; [done|]. simpl. lia.
    + by rewrite H.
Qed.

Lemma first_unknown_app recognized f1 f2 :
  first_unknown recognized (f1 ++ f2) =
  match first_unknown recognized f1 with
  | Some operator => Some operator
  | None => first_unknown recognized f2
  end.
Proof.
  induction f1 as [|[key [op|]] f1 IH]; simpl; [done| |done].
  by destruct (existsb _ recognized).
Qed.

Lemma filter_entries_spec entries acc :
  match first_unknown supported (shape (terms_of entries)) with
  | Some operator =>
      filter_entries entries acc =
        Throw (Error ("Unknown operator: " +:+ operator))
  | None =>
      exists cs, filter_entries entries acc = Return (acc ++ cs) /\
                 length cs = length (terms_of entries)
  end.
Proof.
  revert acc. induction entries as [|[key v] entries IH]; intros acc.
  - simpl. exists []. by rewrite app_nil_r.
  - cbn [filter_entries terms_of flat_map]. fold (terms_of entries).
    unfold shape in *. rewrite List.map_app, first_unknown_app, length_app.
    fold (is_operator_map v). destruct (is_operator_map v) eqn:Hv.
    + rewrite (Object_entries_operator_map _ Hv).
      pose proof (shape_terms_of_entry key v Hv) as Hs. unfold shape in Hs.
      rewrite Hs.
      pose proof (filter_operators_spec key (entries_of v) acc) as Hops.
      unfold terms_of_entry. rewrite Hv, length_map. unbind.
      destruct (first_unknown supported (List.map _ (entries_of v))).
      * by rewrite Hops.
      * destruct Hops as (cs & -> & Hlen). specialize (IH (acc ++ cs)).
        destruct (first_unknown _ _); [done|].
        destruct IH as (cs' & -> & Hlen'). exists (cs ++ cs').
        rewrite <- app_assoc, length_app. split; [done|]. lia.
    + unfold terms_of_entry. rewrite Hv. simpl.
      specialize (IH (acc ++ [[Text "doc."; Bind (VStr key); Text " == ";
                               Bind v]])).
      destruct (first_unknown _ _); [done|].
      destruct IH as (cs' & -> & Hlen'). eexists (_ :: cs').
      rewrite <- app_assoc. split; [done|]. simpl. lia.
Qed.

End Arango.
(** C4 (the claim as the specification words it, refuted). MongoAdapter
    compiles a predicate with the operator [$between], which its map does
    not have, and the condition is absent from the filter it returns.
    CockroachDBAdapter and ArangoAdapter refuse the operators they lack,
    whether or not the operator set of the specification has them, with a
    plain [Error]. *)
Lemma unrecognized_operator_dropped_or_plain_error :
  let between := VArr [VNum 18; VNum 65] in
  let q := VObj [("age", VObj [("$gt", VNum 18); ("$between", between)])] in
  let r := VObj [("name", VObj [("$regex", VStr "^a")])] in
  ~ rejects_unrecognized (List.map fst MongoAdapter.operatorMap)
      MongoAdapter._convertQuery /\
  MongoAdapter._convertQuery q =
    Return (VObj [("age", VObj [("$gt", VNum 18)])]) /\
  ~ rejects_unrecognized (List.map fst CockroachDBAdapter.operators)
      CockroachDBAdapter._buildWhereClause /\
  CockroachDBAdapter._buildWhereClause r =
    Throw (Error "Unknown operator: $regex") /\
  ArangoAdapter._buildFilterExpression q =
    Throw (Error "Unknown operator: $between").
Proof.
  intros between q r.
  split; [|split; [by vm_compute|split; [|split; by vm_compute]]].
  - intros H.
    destruct (H q [("age", VObj [("$gt", VNum 18); ("$between", between)])]
                "age" "$between" between) as (e & He & _).
    + reflexivity.
    + right. left. reflexivity.
    + simpl. intros Hin.
      repeat (destruct Hin as [Hin|Hin]; [discriminate Hin|]). exact Hin.
    + vm_compute in He. discriminate He.
  - intros H.
    destruct (H r [("name", VObj [("$regex", VStr "^a")])]
                "name" "$regex" (VStr "^a")) as (e & He & Hname).
    + reflexivity.
    + left. reflexivity.
    + simpl. intros Hin.
      repeat (destruct Hin as [Hin|Hin]; [discriminate Hin|]). exact Hin.
    + vm_compute in He. injection He as <-.
      destruct Hname as [Hname|Hname]; discriminate Hname.
Qed.

(** C4 (amended). In CockroachDBAdapter and in ArangoAdapter a predicate
    with an operator outside the backend's own list makes the compiler
    throw [Error("Unknown operator: ...")], naming the first such operator;
    a predicate with none compiles, to one condition for each of its
    conditions, and for CockroachDBAdapter to the operands of all of them,
    in order, as the values. *)
Theorem unknown_operator_throws :
  (forall query entries,
     Object_entries query = Return entries ->
     match first_unknown (List.map fst CockroachDBAdapter.operators)
                         (shape (terms_of entries)) with
     | Some operator =>
         CockroachDBAdapter._buildWhereClause query =
           Throw (Error ("Unknown operator: " +:+ operator))
     | None =>
         exists conditions,
           CockroachDBAdapter._buildWhereClause query =
             Return (String.concat " AND " conditions,
                     List.map operand (terms_of entries)) /\
           length conditions = length (terms_of entries)
     end) /\
  (forall query entries,
     Object_entries query = Return entries ->
     match first_unknown ArangoAdapter.supported (shape (terms_of entries)) with
     | Some operator =>
         ArangoAdapter._buildFilterExpression query =
           Throw (Error ("Unknown operator: " +:+ operator))
     | None =>
         exists conditions,
           ArangoAdapter.filter_conditions query = Return conditions /\
           length conditions = length (terms_of entries)
     end).
Proof.
  split; intros query entries H.
  - rewrite (_buildWhereClause_spec _ _ H).
    pose proof (where_conditions_first_unknown (shape (terms_of entries)) 1)
      as Hw.
    destruct (first_unknown _ _).
    + by rewrite Hw.
    + destruct Hw as (cs & -> & Hlen). exists cs. split; [done|].
      unfold shape in Hlen. by rewrite length_map in Hlen.
  - unfold ArangoAdapter._buildFilterExpression, ArangoAdapter.filter_conditions.
    rewrite H.
    pose proof (filter_entries_spec entries []) as Hf. unbind.
    destruct (first_unknown _ _).
    + by rewrite Hf.
    + destruct Hf as (cs & -> & Hlen). by exists cs.
Qed.

Lemma unknown_operator_throws_witness :
  let q := VObj [("age", VObj [("$gt", VNum 18); ("$foo", VNum 1)]);
                 ("name", VStr "ann")] in
  CockroachDBAdapter._buildWhereClause q = Throw (Error "Unknown operator: $foo").
Proof.
  intros q.
  exact (proj1 unknown_operator_throws q _ eq_refl).
Defined.

(** C5 (the claim as the specification words it, refuted).
    [_buildSelectQuery] writes [limit] and [offset] into the text, and
    they are not among the values; [_formatDefaultValue] writes the
    default between quotes into the column definition. *)
Lemma limit_offset_default_spliced :
  let q := VObj [("age", VObj [("$gt", VNum 18)])] in
  ~ options_out_of_band /\
  CockroachDBAdapter._buildSelectQuery "users" q (VStr "*") VUndefined
      (VStr "1; DROP TABLE users") (VNum 20) (VBool false) =
    Return (CockroachDBAdapter.nl +:+ "            SELECT *" +:+
            CockroachDBAdapter.nl +:+ "            FROM users" +:+
            CockroachDBAdapter.nl +:+ "            WHERE age > $1" +:+
            CockroachDBAdapter.nl +:+
            "         LIMIT 1; DROP TABLE users OFFSET 20",
            [VNum 18]) /\
  CockroachDBAdapter._formatDefaultValue Json.scalars
      (CockroachDBAdapter.DefaultValue (VStr "x'; DROP TABLE users; --"))
      "string" =
    Return (VStr "'x'; DROP TABLE users; --'").
Proof.
  intros q. split; [|split; by vm_compute].
  intros H.
  specialize (H "users" (VObj []) (VStr "*") VUndefined (VBool false)
                (VNum 10) VUndefined).
  edestruct H with (limit' := VNum 20) (offset' := VUndefined) as [Heq _];
    [lazy; reflexivity | lazy; reflexivity | done | done |].
  vm_compute in Heq. discriminate Heq.
Qed.
(** C5 (amended). In the WHERE clause that CockroachDBAdapter builds, the
    operands of the predicate are the values, all of them and in order, and
    the text is made of the field names, the operators and the
    placeholders: two predicates with the same fields and operators give
    the same text, in [_buildWhereClause] and in [_buildSelectQuery] with
    the same options. A default of a string column is written by
    [_formatDefaultValue] into the column definition, between quotes. *)
Theorem where_operands_out_of_band :
  (forall query entries text values,
     Object_entries query = Return entries ->
     CockroachDBAdapter._buildWhereClause query = Return (text, values) ->
     values = List.map operand (terms_of entries) /\
     exists conditions,
       where_conditions (shape (terms_of entries)) 1 = Return conditions /\
       text = String.concat " AND " conditions) /\
  (forall query entries query' entries',
     Object_entries query = Return entries ->
     Object_entries query' = Return entries' ->
     shape (terms_of entries) = shape (terms_of entries') ->
     text_of (CockroachDBAdapter._buildWhereClause query) =
     text_of (CockroachDBAdapter._buildWhereClause query')) /\
  (forall tableName select orderBy limit offset forUpdate
          query entries query' entries',
     Object_entries query = Return entries ->
     Object_entries query' = Return entries' ->
     shape (terms_of entries) = shape (terms_of entries') ->
     text_of (CockroachDBAdapter._buildSelectQuery
                tableName query select orderBy limit offset forUpdate) =
     text_of (CockroachDBAdapter._buildSelectQuery
                tableName query' select orderBy limit offset forUpdate)) /\
  (forall tableName select orderBy limit offset forUpdate
          query entries text values,
     Object_entries query = Return entries ->
     CockroachDBAdapter._buildSelectQuery
       tableName query select orderBy limit offset forUpdate
       = Return (text, values) ->
     values = List.map operand (terms_of entries)) /\
  (forall J s,
     CockroachDBAdapter._formatDefaultValue J
       (CockroachDBAdapter.DefaultValue (VStr s)) "string" =
     Return (VStr ("'" +:+ s +:+ "'"))).
Proof.
  split; [|split; [|split; [|split]]].
  - intros query entries text values H.
    rewrite (_buildWhereClause_spec _ _ H). unbind.
    destruct (where_conditions _ 1) as [cs|]; [|done].
    intros [= <- <-]. split; [done|]. by exists cs.
  - intros query entries query' entries' H H' Hshape.
    rewrite (_buildWhereClause_spec _ _ H), (_buildWhereClause_spec _ _ H').
    rewrite Hshape. unfold text_of. unbind.
    by destruct (where_conditions _ 1).
  - intros tableName select orderBy limit offset forUpdate
           query entries query' entries' H H' Hshape.
    unfold CockroachDBAdapter._buildSelectQuery.
    rewrite (_buildWhereClause_spec _ _ H), (_buildWhereClause_spec _ _ H').
    rewrite Hshape. unfold text_of. unbind.
    destruct (where_conditions _ 1); [|done].
    destruct (truthy orderBy); [|done].
    by destruct (Object_entries orderBy).
  - intros tableName select orderBy limit offset forUpdate
           query entries text values H.
    unfold CockroachDBAdapter._buildSelectQuery.
    rewrite (_buildWhereClause_spec _ _ H). unbind.
    destruct (where_conditions _ 1); [|done].
    destruct (truthy orderBy); [|by intros [= _ <-]].
    destruct (Object_entries orderBy); [|done]. by intros [= _ <-].
  - done.
Qed.

Lemma where_operands_out_of_band_witness :
  let q := VObj [("age", VObj [("$gt", VNum 18); ("$lt", VNum 65)]);
                 ("name", VStr "x' OR '1'='1")] in
  exists text,
    CockroachDBAdapter._buildWhereClause q =
      Return (text, [VNum 18; VNum 65; VStr "x' OR '1'='1"]) /\
    text = "age > $1 AND age < $2 AND name = $3".
Proof.
  intros q.
  exists "age > $1 AND age < $2 AND name = $3".
  assert (H : CockroachDBAdapter._buildWhereClause q =
              Return ("age > $1 AND age < $2 AND name = $3",
                      [VNum 18; VNum 65; VStr "x' OR '1'='1"]))
    by (vm_compute; reflexivity).
  split; [exact H|].
  destruct (proj1 where_operands_out_of_band q _ _ _ eq_refl H)
    as (_ & conditions & Hc & ->).
  vm_compute in Hc. by injection Hc as <-.
Defined.
End QueryProperties.

(** * Properties of the Redis adapter *)

Module RedisProperties.
Import RedisAdapter.

Lemma client_set_OK args key v db db' :
  (exists rest, args = VStr key :: v :: rest) ->
  client_set args db = (Return (VStr "OK"), db') ->
  client_get key db' = VStr (toArg v).
Proof.
  intros [rest ->]. unfold client_set. simpl.
  destruct (set_flags _ _) as [f|]; [|done].
  destruct (NX f && XX f); [done|].
  destruct (NX f && _); [done|].
  destruct (XX f && _); [done|].
  intros [= <-]. unfold client_get. by rewrite lookup_insert_eq.
Qed.

(** After a [create] that the server answered with OK, the key holds the
    serialized value. *)
Lemma create_stores J key v options db db' :
  create J key v options db = (Return (VStr "OK"), db') ->
  client_get key db' = VStr (toArg (_serialize J v)).
Proof.
  unfold create. destruct options; try done;
    repeat match goal with
           | |- context [if truthy ?x then _ else _] => destruct (truthy x)
           end;
    (destruct (client_set _ db) as [[reply|e] db1] eqn:Hset; [|done]);
    intros [= -> ->];
    (eapply client_set_OK; [|exact Hset]); eexists; reflexivity.
Qed.

(** C10. A [create(key, v)] that stored the value (which it always does
    with the default options) followed by [get(key)]: when [v] is not a
    string and [JSON.stringify(v)] is the text [t], [get] returns
    [JSON.parse(t)]; when [v] is a string, [get] returns [JSON.parse(v)]
    if [v] parses and [v] itself otherwise. [get] of a key that the server
    does not hold returns null. *)
Theorem create_get_roundtrip (J : Json.builtin) :
  (forall key v db,
     exists db',
       create J key v VUndefined db = (Return (VStr "OK"), db') /\
       create J key v (VObj []) db = (Return (VStr "OK"), db')) /\
  (forall key v options db db' text parsed,
     typeof v <> "string" ->
     Json.stringify J v = VStr text ->
     Json.parse J text = Return parsed ->
     create J key v options db = (Return (VStr "OK"), db') ->
     get J key db' = Return parsed) /\
  (forall key s options db db',
     create J key (VStr s) options db = (Return (VStr "OK"), db') ->
     get J key db' =
       Return (match Json.parse J s with
               | Return parsed => parsed
               | Throw _ => VStr s
               end)) /\
  (forall key db, db !! key = None -> get J key db = Return VNull).
Proof.
  split; [|split; [|split]].
  - intros key v db. by eexists.
  - intros key v options db db' text parsed Hv Hs Hp Hc.
    unfold get. rewrite (create_stores _ _ _ _ _ _ Hc).
    unfold _serialize. destruct (String.eqb (typeof v) "string") eqn:E.
    + apply String.eqb_eq in E. done.
    + rewrite Hs. simpl. by rewrite Hp.
  - intros key s options db db' Hc.
    unfold get. by rewrite (create_stores _ _ _ _ _ _ Hc).
  - intros key db H. unfold get, client_get. by rewrite H.
Qed.

(** With the texts of the scalars: the string 42 comes back as the number
    42, a string that is no JSON text comes back as it is, and the number
    42 comes back as itself. *)
Lemma create_get_roundtrip_witness :
  let J := Json.scalars in
  let db1 := <["answer" := mkEntry "42" None]> (∅ : gmap string entry) in
  let db2 := <["session" := mkEntry "abc" (Some 60)]> (∅ : gmap string entry) in
  create J "answer" (VStr "42") VUndefined ∅ = (Return (VStr "OK"), db1) /\
  get J "answer" db1 = Return (VNum 42) /\
  create J "session" (VStr "abc") (VObj [("ttl", VNum 60)]) ∅ =
    (Return (VStr "OK"), db2) /\
  get J "session" db2 = Return (VStr "abc") /\
  create J "answer" (VNum 42) VUndefined ∅ = (Return (VStr "OK"), db1) /\
  get J "missing" db1 = Return VNull.
Proof.
  intros J db1 db2.
  pose proof (create_get_roundtrip J) as (_ & Hvalue & Hstring & Habsent).
  assert (H1 : create J "answer" (VStr "42") VUndefined ∅
               = (Return (VStr "OK"), db1)) by reflexivity.
  assert (H2 : create J "session" (VStr "abc") (VObj [("ttl", VNum 60)]) ∅
               = (Return (VStr "OK"), db2)) by reflexivity.
  assert (H3 : create J "answer" (VNum 42) VUndefined ∅
               = (Return (VStr "OK"), db1)) by reflexivity.
  split; [exact H1|].
  split; [exact (Hstring _ _ _ _ _ H1)|].
  split; [exact H2|].
  split; [exact (Hstring _ _ _ _ _ H2)|].
  split; [exact H3|].
  apply Habsent. reflexivity.
Defined.

End RedisProperties.

(** * Further properties of the validator and the facade *)

Module RegistryProperties.
Import ConfigValidator DatabaseFactory UniversalORM Invariants.

Lemma missing_nil config fields :
  missing config fields = [] <->
  forall field, In field fields -> truthy (get config field) = true.
Proof.
  unfold missing. induction fields as [|f fields IH]; simpl.
  - split; [intros _ ? []|done].
  - destruct (truthy (get config f)) eqn:E; simpl.
    + rewrite IH. split.
      * intros H field [<-|Hin]; auto.
      * intros H field Hin. apply H. by right.
    + split; [done|]. intros H. specialize (H f (or_introl eq_refl)).
      congruence.
Qed.

(** X1. For a type of the table and a config that is an object,
    [validate] returns exactly when every required field of the type has a
    truthy value in the config: a field that is present with the value 0,
    the empty string, false or null is refused like an absent one. *)
Theorem validate_accepts_iff type config fields :
  type <> "" ->
  truthy config = true ->
  typeof config = "object" ->
  assoc (toLowerCase type) requiredFields = Some fields ->
  (validate type config = Return tt <->
   forall field, In field fields -> truthy (get config field) = true).
Proof.
  intros Htype Htruthy Hobj Hfields. unfold validate.
  destruct (String.eqb type "") eqn:E; [apply String.eqb_eq in E; done|].
  rewrite Htruthy, Hobj, Hfields. simpl.
  rewrite FacadeProperties.check_fields_missing, <- missing_nil.
  destruct (missing config fields); split; done.
Qed.

Lemma validate_accepts_iff_witness :
  validate "Redis" (VObj [("host", VStr "localhost"); ("port", VNum 0)])
    = Return tt <->
  forall field, In field ["host"; "port"] ->
    truthy (get (VObj [("host", VStr "localhost"); ("port", VNum 0)]) field)
    = true.
Proof.
  apply (validate_accepts_iff "Redis" _ ["host"; "port"]);
    [discriminate | reflexivity | reflexivity | reflexivity].
Defined.

Lemma assoc_None_not_in {A} k (l : list (string * A)) :
  assoc k l = None -> ~ In k (List.map fst l).
Proof.
  induction l as [|[k' a] l IH]; simpl; [tauto|].
  destruct (String.eqb k k') eqn:E; [done|].
  intros H [Heq|Hin]; [|by apply IH].
  subst k'. by rewrite String.eqb_refl in E.
Qed.

Lemma assoc_set_None {A} k (a : A) l :
  assoc k l = None -> assoc_set k a l = l ++ [(k, a)].
Proof.
  induction l as [|[k' a'] l IH]; simpl; [done|].
  destruct (String.eqb k k'); [done|]. intros H. by rewrite IH.
Qed.

Lemma assoc_Some_in {A} k (a : A) l :
  assoc k l = Some a -> In (k, a) l.
Proof.
  induction l as [|[k' a'] l IH]; simpl; [done|].
  destruct (String.eqb k k') eqn:E.
  - apply String.eqb_eq in E. intros [= <-]. left. by subst.
  - intros H. right. by apply IH.
Qed.

(** X4. [connect] keeps the cache in good order (no key twice, no
    instance under two keys, every cached reference allocated): it only
    appends to the allocated objects and leaves the entries of the other
    keys as they were. In such a cache two different keys never hold the
    same instance. *)
Theorem connect_keeps_cache_well_formed
    (key : string -> value -> string) type config o r o' :
  well_formed o ->
  connect_with key type config o = (r, o') ->
  well_formed o' /\
  (exists allocated, objects o' = objects o ++ allocated) /\
  (forall k, k <> key type config ->
     Map_get k (connections o') = Map_get k (connections o)) /\
  (forall k1 k2 r1 r2,
     k1 <> k2 ->
     Map_get k1 (connections o') = Some r1 ->
     Map_get k2 (connections o') = Some r2 ->
     r1 <> r2).
Proof.
  intros Hwf. rewrite FacadeProperties.connect_with_cases. intros Hc.
  assert (Hgoal : well_formed o' /\
                  (exists allocated, objects o' = objects o ++ allocated) /\
                  (forall k, k <> key type config ->
                     Map_get k (connections o') = Map_get k (connections o))).
  { destruct (validate type config).
    2: { injection Hc as <- <-. split; [done|]. split; [|done].
         exists []. by rewrite app_nil_r. }
    destruct (Map_get (key type config) (connections o)) as [c|] eqn:Hget.
    { injection Hc as <- <-. split; [done|]. split; [|done].
      exists []. by rewrite app_nil_r. }
    destruct (factory o !! toLowerCase type) as [C|].
    2: { injection Hc as <- <-. split; [done|]. split; [|done].
         exists []. by rewrite app_nil_r. }
    injection Hc as <- <-. destruct Hwf as (Hk & Hr & Hall). simpl.
    unfold Map_set, Map_get in *. rewrite (assoc_set_None _ _ _ Hget).
    split; [|split].
    - unfold well_formed. simpl. rewrite !List.map_app. simpl.
      rewrite length_app. simpl. split; [|split].
      + apply NoDup_app. split; [done|]. split.
        * intros k Hin [<-|[]]%list_elem_of_In.
          apply (assoc_None_not_in _ _ Hget). by apply list_elem_of_In.
        * apply NoDup_singleton.
      + apply NoDup_app. split; [done|]. split.
        * intros r' Hin [<-|[]]%list_elem_of_In.
          rewrite Forall_forall in Hall. specialize (Hall _ Hin). lia.
        * apply NoDup_singleton.
      + apply Forall_app. split.
        * eapply Forall_impl; [exact Hall|]. simpl. intros. lia.
        * constructor; [lia|constructor].
    - by eexists.
    - intros k Hk'. clear -Hk'.
      induction (connections o) as [|[k0 r0] l IH]; simpl.
      + destruct (String.eqb k (key type config)) eqn:E; [|done].
        by apply String.eqb_eq in E.
      + destruct (String.eqb k k0); [done|]. apply IH. }
  destruct Hgoal as (Hwf' & Halloc & Hframe).
  split; [done|]. split; [done|]. split; [done|].
  intros k1 k2 r1 r2 Hne H1 H2 <-.
  destruct Hwf' as (Hk & Hr & _).
  apply assoc_Some_in in H1, H2.
  apply Hne.
  assert (Hinj : forall (l : list (string * ref)),
            NoDup (List.map snd l) -> In (k1, r1) l -> In (k2, r1) l -> k1 = k2).
  { clear. induction l as [|[k r] l IH]; simpl; [done|].
    intros [Hnotin Hnd]%NoDup_cons [E1|H1] [E2|H2].
    - congruence.
    - injection E1 as -> ->. exfalso. apply Hnotin. apply list_elem_of_In.
      change r1 with (snd (k2, r1)). by apply in_map.
    - injection E2 as -> ->. exfalso. apply Hnotin. apply list_elem_of_In.
      change r1 with (snd (k1, r1)). by apply in_map.
    - by apply IH. }
  by apply (Hinj _ Hr).
Qed.

Lemma connect_keeps_cache_well_formed_witness :
  let a := VObj [("uri", VStr "mongodb://a"); ("database", VStr "app")] in
  let o1 := (connect "mongodb" a init).2 in
  well_formed o1 /\
  well_formed (connect "redis" (VObj [("host", VStr "h"); ("port", VNum 1)])
                 o1).2.
Proof.
  intros a o1.
  assert (Hinit : well_formed init).
  { repeat split; simpl; constructor. }
  destruct (connect "mongodb" a init) as [r o] eqn:E.
  pose proof (proj1 (connect_keeps_cache_well_formed connectionKey _ _ _ _ _
                       Hinit E)) as H1.
  split; [exact H1|].
  destruct (connect "redis" (VObj [("host", VStr "h"); ("port", VNum 1)]) o1)
    as [r' o''] eqn:E'.
  exact (proj1 (connect_keeps_cache_well_formed connectionKey _ _ _ _ _ H1 E')).
Defined.

(** X5. [connect] after [closeAll()]. When [closeAll()] was fulfilled, an
    instance that [connect] returns is newly constructed: it is none of
    the objects that existed, so a closed adapter is not handed out again.
    When [closeAll()] rejected, the cache was kept, and [connect] under a
    cached key returns the cached instance, one whose [close()] has been
    called. *)
Theorem connect_after_closeAll
    (key : string -> value -> string) type config close o called p o1 r o2 :
  closeAll close o = (called, p, o1) ->
  connect_with key type config o1 = (Return r, o2) ->
  match outcome p with
  | Return _ => deref (objects o) r = None
  | Throw _ =>
      forall cached,
        Map_get (key type config) (connections o) = Some cached ->
        r = cached /\ In cached called
  end.
Proof.
  unfold closeAll. intros Hclose Hconnect.
  destruct (outcome (Promise_all _)) eqn:Hall;
    injection Hclose as <- <- <-; simpl.
  - rewrite FacadeProperties.connect_with_cases in Hconnect. simpl in Hconnect.
    destruct (validate type config); [|done].
    destruct (factory o !! toLowerCase type); [|done].
    injection Hconnect as <- <-. unfold deref. apply nth_error_None. lia.
  - intros cached Hget.
    rewrite FacadeProperties.connect_with_cases in Hconnect.
    destruct (validate type config); [|done].
    rewrite Hget in Hconnect. injection Hconnect as <- <-. split; [done|].
    unfold Map_values. apply assoc_Some_in in Hget.
    change cached with (snd (key type config, cached)). by apply in_map.
Qed.

Lemma connect_after_closeAll_witness :
  let config := VObj [("host", VStr "localhost"); ("port", VNum 6379)] in
  let o := (connect "redis" config init).2 in
  let close (r : ref) : promise value := mkPromise 3 (Return VUndefined) in
  (connect "redis" config (closeAll close o).2).1 = Return 1%nat /\
  deref (objects o) 1%nat = None.
Proof.
  intros config o close.
  assert (H : connect "redis" config (closeAll close o).2
              = (Return 1%nat, (connect "redis" config (closeAll close o).2).2))
    by (vm_compute; reflexivity).
  split; [by rewrite H|].
  exact (connect_after_closeAll connectionKey "redis" config close o
           _ _ _ _ _ eq_refl H).
Defined.

End RegistryProperties.

(** * Further properties of the Mongo adapter *)

Module MongoProperties.
Import MongoAdapter MongoQuery.

Lemma assoc_not_in_None {A} k (l : list (string * A)) :
  ~ In k (List.map fst l) -> assoc k l = None.
Proof.
  induction l as [|[k' a] l IH]; simpl; [done|].
  intros H. destruct (String.eqb k k') eqn:E.
  - apply String.eqb_eq in E. subst. tauto.
  - apply IH. tauto.
Qed.

Lemma assoc_app {A} k (l1 l2 : list (string * A)) :
  assoc k (l1 ++ l2) =
    match assoc k l1 with Some a => Some a | None => assoc k l2 end.
Proof.
  induction l1 as [|[k' a] l1 IH]; simpl; [done|].
  by destruct (String.eqb k k').
Qed.

Lemma NoDup_snd_inj {A B} (l : list (A * B)) k1 k2 b :
  NoDup (List.map snd l) -> In (k1, b) l -> In (k2, b) l -> k1 = k2.
Proof.
  induction l as [|[k b'] l IH]; simpl; [done|].
  intros [Hnotin Hnd]%NoDup_cons [E1|H1] [E2|H2].
  - congruence.
  - injection E1 as -> ->. exfalso. apply Hnotin. apply list_elem_of_In.
    change b with (snd (k2, b)). by apply in_map.
  - injection E2 as -> ->. exfalso. apply Hnotin. apply list_elem_of_In.
    change b with (snd (k1, b)). by apply in_map.
  - by apply IH.
Qed.

(** Take the cases of a membership in a list that is written out. *)
Ltac cases_of H :=
  simpl in H;
  repeat (destruct H as [H|H]; [injection H as <- <-|]); try destruct H.

Lemma lookup_assoc operator :
  lookup operatorMap operator =
    assoc operator (operatorMap ++ Object_prototype).
Proof.
  unfold lookup. rewrite assoc_app.
  destruct (assoc operator operatorMap) as [native|] eqn:E; [|done].
  apply RegistryProperties.assoc_Some_in in E. cases_of E; done.
Qed.

Lemma lookup_own operator native :
  assoc operator operatorMap = Some native ->
  lookup operatorMap operator = Some operator.
Proof.
  intros E. unfold lookup. rewrite E.
  apply RegistryProperties.assoc_Some_in in E. cases_of E; done.
Qed.

Lemma lookup_In operator native :
  lookup operatorMap operator = Some native ->
  In (operator, native) (operatorMap ++ Object_prototype).
Proof.
  rewrite lookup_assoc. apply RegistryProperties.assoc_Some_in.
Qed.

Lemma lookup_injective operator operator' native :
  lookup operatorMap operator = Some native ->
  lookup operatorMap operator' = Some native ->
  operator = operator'.
Proof.
  intros H H'%lookup_In. apply lookup_In in H.
  refine (NoDup_snd_inj _ _ _ _ _ H H').
  apply (bool_decide_unpack _). by vm_compute.
Qed.

Lemma lookup_not_proto operator native :
  lookup operatorMap operator = Some native -> native <> "__proto__".
Proof.
  intros H%lookup_In. cases_of H; done.
Qed.

Lemma lookup_not_inherited operator :
  assoc operator Object_prototype = None ->
  lookup operatorMap operator =
    match assoc operator operatorMap with
    | Some _ => Some operator
    | None => None
    end.
Proof.
  intros H. destruct (assoc operator operatorMap) as [native|] eqn:E.
  - by apply lookup_own in E.
  - unfold lookup. by rewrite E.
Qed.

#[local] Opaque lookup operatorMap Object_prototype.

Lemma Object_set_new key v (o : list (string * value)) :
  key <> "__proto__" ->
  ~ In key (List.map fst o) ->
  Object_set key v o = o ++ [(key, v)].
Proof.
  intros Hkey Hnotin. unfold Object_set.
  destruct (String.eqb_spec key "__proto__"); [done|].
  by apply RegistryProperties.assoc_set_None, assoc_not_in_None.
Qed.

Lemma kept_In native x operators :
  In (native, x) (kept operators) ->
  exists operator,
    In (operator, x) operators /\ lookup operatorMap operator = Some native.
Proof.
  unfold kept. intros ([operator x'] & Hin & H)%in_flat_map. simpl in H.
  destruct (lookup operatorMap operator) as [native'|] eqn:E; [|done].
  destruct H as [[= -> ->]|[]]. by exists operator.
Qed.

Lemma kept_NoDup operators :
  NoDup (List.map fst operators) -> NoDup (List.map fst (kept operators)).
Proof.
  induction operators as [|[op x] operators IH]; [done|].
  intros [Hnotin Hnd]%NoDup_cons. unfold kept. cbn [flat_map fst snd].
  destruct (lookup operatorMap op) as [native|] eqn:E; [|by apply IH].
  simpl. apply NoDup_cons. split; [|by apply IH].
  intros Hin%list_elem_of_In. apply Hnotin, list_elem_of_In.
  apply in_map_iff in Hin as ([native' x'] & <- & Hin). simpl in E.
  apply kept_In in Hin as (op' & Hin & E').
  rewrite (lookup_injective _ _ _ E E').
  apply in_map_iff. by exists (op', x').
Qed.

Lemma convert_operators_kept operators conditions :
  NoDup (List.map fst (conditions ++ kept operators)) ->
  convert_operators operatorMap operators conditions =
    conditions ++ kept operators.
Proof.
  revert conditions.
  induction operators as [|[op x] operators IH]; intros conditions.
  - intros _. simpl. by rewrite app_nil_r.
  - unfold kept. cbn [flat_map convert_operators fst snd].
    destruct (lookup operatorMap op) as [native|] eqn:E; [|apply IH].
    intros Hnd. cbn [app] in *.
    rewrite Object_set_new.
    + rewrite IH; [by rewrite <- app_assoc|].
      rewrite <- app_assoc. exact Hnd.
    + by apply (lookup_not_proto op).
    + rewrite List.map_app in Hnd. apply NoDup_app in Hnd as (_ & Hdisjoint & _).
      intros Hin%list_elem_of_In. apply (Hdisjoint _ Hin). simpl. left.
Qed.

Lemma process_entries_converted null_guard entries processed :
  distinct_keys entries ->
  (null_guard = false -> forall k, ~ In (k, VNull) entries) ->
  (forall k, In k (List.map fst entries) ->
             ~ In k (List.map fst processed)) ->
  process_entries null_guard operatorMap entries processed =
    Return (processed ++ List.map converted_entry entries).
Proof.
  revert processed.
  induction entries as [|[key v] entries IH]; intros processed.
  - intros _ _ _. simpl. by rewrite app_nil_r.
  - intros ([Hnotin Hnd]%NoDup_cons & Hproto & [Hv Hall]%Forall_cons)
      Hnull Hdisjoint.
    simpl in Hproto, Hv.
    assert (Hrest : forall acc,
              acc = processed ++ [(key, converted v)] ->
              process_entries null_guard operatorMap entries acc =
              Return (processed ++ converted_entry (key, v)
                                   :: List.map converted_entry entries)).
    { intros acc ->. rewrite IH.
      - by rewrite <- app_assoc.
      - split; [done|]. split; [tauto|done].
      - intros Hg k Hin. apply (Hnull Hg k). by right.
      - intros k Hk. rewrite List.map_app, in_app_iff. simpl.
        intros [Hin|[<-|[]]].
        + by apply (Hdisjoint k); [right|].
        + apply Hnotin. by apply list_elem_of_In. }
    assert (Hset : forall x,
              Object_set key x processed = processed ++ [(key, x)]).
    { intros x. apply Object_set_new; [tauto|]. apply Hdisjoint. by left. }
    destruct v as [| |b|n|s|items|operators]; simpl; rewrite ?Hset;
      try (by apply Hrest).
    + destruct null_guard; simpl.
      * by apply Hrest.
      * exfalso. apply (Hnull eq_refl key). by left.
    + destruct null_guard; simpl; by apply Hrest.
    + assert (Hconv : convert_operators operatorMap operators []
                      = kept operators).
      { rewrite convert_operators_kept; [done|]. by apply kept_NoDup. }
      rewrite Hconv.
      destruct null_guard; simpl; apply Hrest; unfold converted;
        by destruct (kept operators).
Qed.

Lemma convertQuery_map entries :
  distinct_keys entries ->
  _convertQuery_ts (VObj entries) =
    Return (VObj (List.map converted_entry entries)) /\
  ((forall k, ~ In (k, VNull) entries) ->
   _convertQuery (VObj entries) =
     Return (VObj (List.map converted_entry entries))).
Proof.
  intros Hd. unfold _convertQuery_ts, _convertQuery, _processQueryOperators_ts,
    _processQueryOperators. simpl. unfold mbind, completion_bind. split.
  - rewrite (process_entries_converted true entries []); try done.
    by intros k _ [].
  - intros Hnull.
    rewrite (process_entries_converted false entries []); try done.
    by intros k _ [].
Qed.

Ltac distinct :=
  repeat (apply NoDup_cons_2;
          [simpl; rewrite ?elem_of_cons, ?elem_of_nil; intuition discriminate|]);
  try apply NoDup_nil_2.

(** The hypothesis of the two theorems below, of a predicate that is
    written out. *)
Ltac literal :=
  split; [simpl; distinct|];
  split; [simpl; intuition discriminate|];
  repeat (apply Forall_cons_2; [simpl; try exact I; distinct|]);
  apply Forall_nil_2.

(** X6. For a predicate written as an object literal (no field twice,
    none under [__proto__], no operator twice under a field),
    [_convertQuery] keeps every field, in order. Of a value that is an
    object it keeps the operands of the operators under which the map has
    something, if there is one: an operator of the map under its own
    name, and a name that the map inherits from [Object.prototype]
    ([constructor], [toString], ...) under the string of what it
    inherits. Any other value (a literal, an array, an object of which
    nothing is kept) is passed on untouched. The JavaScript source does so
    when no field is null; the TypeScript source always. *)
Theorem convertQuery_per_field entries :
  distinct_keys entries ->
  _convertQuery_ts (VObj entries) =
    Return (VObj (List.map converted_entry entries)) /\
  ((forall k, ~ In (k, VNull) entries) ->
   _convertQuery (VObj entries) =
     Return (VObj (List.map converted_entry entries))).
Proof. exact (convertQuery_map entries). Qed.

Lemma convertQuery_per_field_witness :
  let q := [("age", VObj [("$gt", VNum 18); ("$between", VArr [VNum 1; VNum 2])]);
            ("tags", VArr [VStr "a"]);
            ("geo", VObj [("$near", VNum 3)]);
            ("kind", VObj [("constructor", VNum 5)])] in
  _convertQuery_ts (VObj q) = Return (VObj (List.map converted_entry q)) /\
  List.map converted_entry q =
    [("age", VObj [("$gt", VNum 18)]);
     ("tags", VArr [VStr "a"]);
     ("geo", VObj [("$near", VNum 3)]);
     ("kind", VObj [("function Object() { [native code] }", VNum 5)])].
Proof.
  intros q. split; [|by vm_compute].
  refine (proj1 (convertQuery_per_field q _)). literal.
Defined.

Lemma kept_kept operators :
  Forall (fun o => assoc o.1 Object_prototype = None) operators ->
  kept (kept operators) = kept operators.
Proof.
  induction 1 as [|[op x] operators Hop _ IH]; [done|].
  unfold kept in *. cbn [flat_map fst snd] in *.
  destruct (lookup operatorMap op) as [native|] eqn:E; [|done].
  assert (native = op) as ->.
  { rewrite (lookup_not_inherited _ Hop) in E.
    destruct (assoc op operatorMap); congruence. }
  cbn [app flat_map fst snd]. by rewrite E, IH.
Qed.

Lemma converted_converted v :
  match v with
  | VObj operators =>
      Forall (fun o => assoc o.1 Object_prototype = None) operators
  | _ => True
  end ->
  converted (converted v) = converted v.
Proof.
  destruct v as [| | | | | |operators]; try done. intros Hown.
  unfold converted at 2.
  destruct (kept operators) as [|c cs] eqn:E; unfold converted.
  - by rewrite E.
  - rewrite <- E, kept_kept by done. by rewrite E.
Qed.

Lemma converted_distinct entries :
  distinct_keys entries -> distinct_keys (List.map converted_entry entries).
Proof.
  intros (Hk & Hproto & Hall).
  assert (Hkeys : List.map fst (List.map converted_entry entries)
                  = List.map fst entries)
    by (rewrite List.map_map; apply List.map_ext; by intros []).
  rewrite <- Hkeys in Hk, Hproto. split; [done|]. split; [done|].
  apply Forall_forall. intros e Hin.
  apply list_elem_of_In, in_map_iff in Hin as ([k v] & <- & Hin).
  rewrite Forall_forall in Hall.
  specialize (Hall (k, v) (proj2 (list_elem_of_In _ _) Hin)). simpl in *.
  destruct v as [| | | | | |operators]; [exact I..|]. unfold converted.
  destruct (kept operators) as [|c cs] eqn:E; [done|].
  rewrite <- E. by apply kept_NoDup.
Qed.

Lemma converted_null entries :
  (forall k, ~ In (k, VNull) entries) ->
  forall k, ~ In (k, VNull) (List.map converted_entry entries).
Proof.
  intros Hnull k Hin. apply in_map_iff in Hin as ([k' v] & [= -> Hv] & Hin).
  destruct v as [| | | | | |operators]; try done.
  - by apply (Hnull k).
  - simpl in Hv. by destruct (kept operators).
Qed.

(** X7. [_convertQuery] is idempotent on such a predicate when none of
    its operators names a member of [Object.prototype]: converting the
    converted predicate changes nothing. *)
Theorem convertQuery_idempotent entries q :
  distinct_keys entries ->
  own_operators entries ->
  (_convertQuery_ts (VObj entries) = Return q ->
   _convertQuery_ts q = Return q) /\
  ((forall k, ~ In (k, VNull) entries) ->
   _convertQuery (VObj entries) = Return q ->
   _convertQuery q = Return q).
Proof.
  intros Hd Hown.
  assert (Hmap : List.map converted_entry (List.map converted_entry entries)
                 = List.map converted_entry entries).
  { rewrite List.map_map. apply map_ext_in. intros [k v] Hin.
    unfold converted_entry. simpl. rewrite converted_converted; [done|].
    unfold own_operators in Hown. rewrite Forall_forall in Hown.
    exact (Hown (k, v) (proj2 (list_elem_of_In _ _) Hin)). }
  pose proof (converted_distinct _ Hd) as Hd'.
  split.
  - rewrite (proj1 (convertQuery_map _ Hd)). intros [= <-].
    by rewrite (proj1 (convertQuery_map _ Hd')), Hmap.
  - intros Hnull. rewrite (proj2 (convertQuery_map _ Hd) Hnull).
    intros [= <-].
    by rewrite (proj2 (convertQuery_map _ Hd') (converted_null _ Hnull)),
      Hmap.
Qed.

Lemma convertQuery_idempotent_witness :
  let q := [("age", VObj [("$gt", VNum 18); ("$between", VNum 2)]);
            ("name", VStr "ann")] in
  let q' := VObj [("age", VObj [("$gt", VNum 18)]); ("name", VStr "ann")] in
  _convertQuery_ts (VObj q) = Return q' /\ _convertQuery_ts q' = Return q'.
Proof.
  intros q q'.
  assert (H : _convertQuery_ts (VObj q) = Return q') by (by vm_compute).
  split; [exact H|].
  refine (proj1 (convertQuery_idempotent q q' _ _) H); [literal|].
  repeat (apply Forall_cons_2;
          [simpl; try exact I; repeat constructor|]).
  apply Forall_nil_2.
Defined.

Lemma process_entries_null entries processed :
  (exists k, In (k, VNull) entries) ->
  process_entries false operatorMap entries processed =
    Throw (TypeError "Cannot convert undefined or null to object").
Proof.
  revert processed.
  induction entries as [|[key v] entries IH]; intros processed [k Hin];
    [done|].
  destruct Hin as [[= -> ->]|Hin]; [done|].
  assert (Hrest : forall acc,
            process_entries false operatorMap entries acc =
            Throw (TypeError "Cannot convert undefined or null to object"))
    by (intros acc; apply IH; eauto).
  destruct v; simpl; by rewrite ?Hrest.
Qed.

Lemma process_entries_returns null_guard entries processed :
  (null_guard = false -> forall k, ~ In (k, VNull) entries) ->
  exists q, process_entries null_guard operatorMap entries processed = Return q.
Proof.
  revert processed.
  induction entries as [|[key v] entries IH]; intros processed Hnull;
    [by eexists|].
  assert (Hrest : forall acc,
            exists q, process_entries null_guard operatorMap entries acc
                      = Return q).
  { intros acc. apply IH. intros Hg k Hin. apply (Hnull Hg k). by right. }
  destruct v; simpl; try apply Hrest;
    destruct null_guard; simpl; try apply Hrest.
  exfalso. apply (Hnull eq_refl key). by left.
Qed.

(** X8. A predicate with a field whose value is null: the [_convertQuery]
    of MongoAdapter.js throws a [TypeError] (it takes the entries of null),
    and returns for every other object predicate; the TypeScript source,
    which tests for null, returns for every object predicate. *)
Theorem convertQuery_null_field entries :
  ((exists k, In (k, VNull) entries) ->
   _convertQuery (VObj entries) =
     Throw (TypeError "Cannot convert undefined or null to object")) /\
  ((forall k, ~ In (k, VNull) entries) ->
   exists q, _convertQuery (VObj entries) = Return q) /\
  (exists q, _convertQuery_ts (VObj entries) = Return q).
Proof.
  unfold _convertQuery_ts, _convertQuery, _processQueryOperators_ts,
    _processQueryOperators. simpl. unfold mbind, completion_bind.
  split; [|split].
  - intros H. by rewrite process_entries_null.
  - intros H.
    destruct (process_entries_returns false entries [] (fun _ => H)) as [q ->].
    by eexists.
  - destruct (process_entries_returns true entries []) as [q ->]; [done|].
    by eexists.
Qed.



End MongoProperties.

(** * Further properties of the Redis adapter *)

Module RedisOperationsProperties.
Import Driver RedisAdapter RedisOperations.

(** X10. [cache(key, callback)]. When the key holds a value that
    deserializes to something other than null, [cache] returns it and does
    not call the callback. Otherwise it calls the callback and then always
    throws a [DatabaseError], also when the callback returned: the value is
    neither stored nor returned. *)
Theorem cache_hit_or_throw J key callback ttl db :
  (forall v, get J key db = Return v -> v <> VNull ->
     cache J key callback ttl db = ([], Return v)) /\
  (get J key db = Return VNull ->
   trace (cache J key callback ttl db) = trace callback /\
   result (cache J key callback ttl db) =
     Throw (DatabaseError
              ("Cache operation failed: " +:+
               match result callback with
               | Return _ => "this.set is not a function"
               | Throw e => message e
               end))).
Proof.
  unfold cache, MongoAdapter.lift, try_catch, throw, trace, result,
    mbind, io_bind, mret, io_ret.
  split.
  - intros v -> Hv. by destruct v.
  - intros ->. destruct callback as [t [x|e]]; simpl;
      by rewrite ?app_nil_r.
Qed.

Lemma cache_hit_or_throw_witness :
  let J := Json.scalars in
  let db := <["views" := mkEntry "41" None]> (∅ : gmap string entry) in
  let callback : io value := ([Call "db" "count" []], Return (VNum 7)) in
  cache J "views" callback (VNum 3600) db = ([], Return (VNum 41)) /\
  result (cache J "visits" callback (VNum 3600) db) =
    Throw (DatabaseError "Cache operation failed: this.set is not a function").
Proof.
  intros J db callback.
  pose proof (cache_hit_or_throw J "views" callback (VNum 3600) db) as [Hhit _].
  pose proof (cache_hit_or_throw J "visits" callback (VNum 3600) db)
    as [_ Hmiss].
  split.
  - apply Hhit; [reflexivity|discriminate].
  - exact (proj2 (Hmiss eq_refl)).
Defined.

(** X11. [close()] quits the client first, then the subscriber and the
    publisher when pub/sub is enabled. When the client's [quit()] fails,
    the connections of pub/sub are never quit, and the error is a
    [DatabaseError]. *)
Theorem close_quits_in_order d subscriber publisher :
  (all_ok d ->
   close d subscriber publisher =
     (Call "client" "quit" [] ::
      (if subscriber then [Call "subscriber" "quit" []] else []) ++
      (if publisher then [Call "publisher" "quit" []] else []),
      Return VUndefined)) /\
  (forall e,
     d (Call "client" "quit" []) = Throw e ->
     close d subscriber publisher =
       ([Call "client" "quit" []],
        Throw (DatabaseError ("Redis close failed: " +:+ message e)))).
Proof.
  unfold close, invoke, try_catch, throw, mbind, io_bind, mret, io_ret.
  split.
  - intros Hok.
    destruct (Hok (Call "client" "quit" [])) as [v1 ->].
    destruct (Hok (Call "subscriber" "quit" [])) as [v2 E2].
    destruct (Hok (Call "publisher" "quit" [])) as [v3 E3].
    destruct subscriber, publisher; simpl; rewrite ?E2, ?E3; done.
  - intros e ->. done.
Qed.

Lemma close_quits_in_order_witness :
  let d : driver := fun c =>
    if is_call "client" "quit" c then Throw (Error "Connection is closed.")
    else Return (VStr "OK") in
  close d true true =
    ([Call "client" "quit" []],
     Throw (DatabaseError "Redis close failed: Connection is closed.")).
Proof.
  intros d.
  exact (proj2 (close_quits_in_order d true true) _ eq_refl).
Defined.

(** X12. Pub/sub. Without a publisher, [publish] throws a [DatabaseError]
    and sends nothing. With one, it sends the serialized message, and a
    subscriber of the channel on which that text arrives passes to its
    callback what [get] returns after [create]: for a string the parsed
    JSON if it parses, the string otherwise. A message on another
    channel is not passed on. *)
Theorem publish_then_on_message J d channel v :
  publish J d false channel v =
    ([], Throw (DatabaseError
                  "Redis PUBLISH operation failed: Pub/Sub not enabled")) /\
  trace (publish J d true channel v) =
    [Call "publisher" "publish" [VStr channel; _serialize J v]] /\
  (forall s,
     on_message J channel channel (_serialize J (VStr s)) =
       Some (match Json.parse J s with
             | Return parsed => parsed
             | Throw _ => VStr s
             end)) /\
  (forall text parsed,
     typeof v <> "string" ->
     Json.stringify J v = VStr text ->
     Json.parse J text = Return parsed ->
     on_message J channel channel (_serialize J v) = Some parsed) /\
  (forall other message,
     other <> channel -> on_message J channel other message = None).
Proof.
  split; [done|]. split.
  { unfold publish, invoke, try_catch, trace. simpl.
    by destruct (d _). }
  unfold on_message, _serialize, _deserialize. rewrite String.eqb_refl.
  split; [done|]. split.
  - intros text parsed Hv Hs Hp.
    destruct (String.eqb (typeof v) "string") eqn:E;
      [by apply String.eqb_eq in E|].
    rewrite Hs. simpl. by rewrite Hp.
  - intros other message Hne.
    destruct (String.eqb other channel) eqn:E; [|done].
    by apply String.eqb_eq in E.
Qed.

(** X13. [create] with options whose [ttl], [nx] and [xx] are all falsy,
    a [ttl] of 0 among them, is a plain SET: it is answered OK and stores
    the serialized value with no expiry, over whatever the key held. *)
Theorem create_falsy_options J key v options db :
  options <> VNull ->
  truthy (Js.get options "ttl") = false ->
  truthy (Js.get options "nx") = false ->
  truthy (Js.get options "xx") = false ->
  create J key v options db =
    (Return (VStr "OK"),
     <[key := mkEntry (toArg (_serialize J v)) None]> db).
Proof.
  intros Hnull Httl Hnx Hxx. unfold create.
  destruct options; try done; by rewrite Httl, Hnx, Hxx.
Qed.

Lemma create_falsy_options_witness :
  create Json.scalars "k" (VNum 5) (VObj [("ttl", VNum 0)])
    (<["k" := mkEntry "old" (Some 60)]> ∅) =
    (Return (VStr "OK"), <["k" := mkEntry "5" None]> (<["k" := mkEntry "old" (Some 60)]> ∅)).
Proof.
  apply (create_falsy_options Json.scalars "k" (VNum 5) (VObj [("ttl", VNum 0)]));
    [discriminate | reflexivity | reflexivity | reflexivity].
Defined.

(** X14. [create] does not tell a value that is not a string from the
    string of its JSON text: both leave the server in the same state with
    the same answer, so the string ["42"] and the number 42 cannot be told
    apart by a later [get]. *)
Theorem create_conflates_json_text J key v text options db :
  typeof v <> "string" ->
  Json.stringify J v = VStr text ->
  create J key v options db = create J key (VStr text) options db.
Proof.
  intros Hv Hs. unfold create, _serialize.
  destruct (String.eqb (typeof v) "string") eqn:E;
    [by apply String.eqb_eq in E|].
  by rewrite Hs.
Qed.

Lemma create_conflates_json_text_witness :
  create Json.scalars "answer" (VNum 42) VUndefined ∅ =
  create Json.scalars "answer" (VStr "42") VUndefined ∅.
Proof.
  apply (create_conflates_json_text Json.scalars "answer" (VNum 42) "42");
    [discriminate | reflexivity].
Defined.

End RedisOperationsProperties.

(** * Further properties of the CockroachDB adapter *)

Module CockroachProperties.
Import Driver Members CockroachDBAdapter CockroachDBCrud Statements.

Ltac unbind :=
  unfold mbind, completion_bind, mret, completion_ret, fmap, completion_fmap
    in *.

Lemma with_client_run {A} d failed (body : io A) client :
  d (Call "pool" "connect" []) = Return client ->
  with_client d failed body =
    (Call "pool" "connect" [] :: trace body ++ [Call "client" "release" []],
     match d (Call "client" "release" []) with
     | Throw e => Throw e
     | Return _ =>
         match result body with
         | Return a => Return a
         | Throw e => Throw (DatabaseError (failed +:+ message e))
         end
     end).
Proof.
  intros Hc. unfold with_client, invoke, try_finally, try_catch, throw,
    trace, result, mbind, io_bind. rewrite Hc.
  destruct body as [t [a|e]]; simpl; by rewrite ?app_nil_r.
Qed.

Lemma with_client_last {A} d failed (body : io A) client :
  d (Call "pool" "connect" []) = Return client ->
  last (trace (with_client d failed body)) = Some (Call "client" "release" []).
Proof.
  intros Hc. rewrite (with_client_run _ _ _ _ Hc). unfold trace at 1. simpl.
  by rewrite app_comm_cons, last_snoc.
Qed.

Lemma with_client_error {A} d failed (body : io A) client released e :
  d (Call "pool" "connect" []) = Return client ->
  d (Call "client" "release" []) = Return released ->
  result (with_client d failed body) = Throw e ->
  exists cause, result body = Throw cause /\
                e = DatabaseError (failed +:+ message cause).
Proof.
  intros Hc Hr. rewrite (with_client_run _ _ _ _ Hc), Hr. unfold result at 1.
  simpl. destruct (result body) as [a|cause]; [done|].
  intros [= <-]. by exists cause.
Qed.

Lemma send_trace d text values :
  trace (send d text values) = [Call "client" "query" [VStr text; VArr values]].
Proof.
  unfold send, invoke, MongoAdapter.lift, mbind, io_bind, trace.
  destruct (d (Call "client" "query" _)) as [r|e]; [|done].
  by destruct (member r "rows").
Qed.

Lemma statement_sent d failed statement client text values :
  d (Call "pool" "connect" []) = Return client ->
  statement = Return (text, values) ->
  trace (with_client d failed
           ('(text, values) ← MongoAdapter.lift statement;
            send d text values)) =
    [Call "pool" "connect" [];
     Call "client" "query" [VStr text; VArr values];
     Call "client" "release" []].
Proof.
  intros Hc ->. rewrite (with_client_run _ _ _ _ Hc). unfold trace at 1.
  cbn [fst]. unfold MongoAdapter.lift, mbind, io_bind.
  pose proof (send_trace d text values) as H. unfold trace in *.
  destruct (send d text values) as [t r]. simpl in *. by rewrite H.
Qed.

Lemma statement_failed d failed statement client released e :
  d (Call "pool" "connect" []) = Return client ->
  d (Call "client" "release" []) = Return released ->
  statement = Throw e ->
  with_client d failed
    ('(text, values) ← MongoAdapter.lift statement; send d text values) =
    ([Call "pool" "connect" []; Call "client" "release" []],
     Throw (DatabaseError (failed +:+ message e))).
Proof.
  intros Hc Hr ->. by rewrite (with_client_run _ _ _ _ Hc), Hr.
Qed.

(** X15. [find], [update], [delete], [insert] and [query] end with the
    release of the client they took from the pool, whatever their
    arguments and whatever the client answers; and when the release
    itself does not fail, an error they throw is a [DatabaseError] whose
    message is the method's own prefix followed by the message of the
    cause. *)
Theorem crud_releases_client J newDate d models client :
  d (Call "pool" "connect" []) = Return client ->
  let released {A} (m : io A) (failed : string) :=
    last (trace m) = Some (Call "client" "release" []) /\
    forall v e,
      d (Call "client" "release" []) = Return v ->
      result m = Throw e ->
      name e = "DatabaseError" /\ String.prefix failed (message e) = true in
  (forall tableName query options,
     released (find d tableName query options) "Find failed: ") /\
  (forall tableName query update_ options,
     released (update J newDate d models tableName query update_ options)
              "Update failed: ") /\
  (forall tableName query options,
     released (delete d tableName query options) "Delete failed: ") /\
  (forall tableName data options,
     released (insert J newDate d models tableName data options)
              "Insert failed: ") /\
  (forall text values, released (query d text values) "Query failed: ").
Proof.
  intros Hc released.
  assert (H : forall A failed (body : io A),
            released A (with_client d failed body) failed).
  { intros A failed body. split; [by apply (with_client_last _ _ _ client)|].
    intros v e Hr He.
    destruct (with_client_error _ _ _ _ _ _ Hc Hr He) as (cause & _ & ->).
    split; [done|]. simpl. clear.
    induction failed as [|c failed IH]; simpl; [by destruct (message cause)|].
    by destruct (Ascii.ascii_dec c c). }
  repeat match goal with |- _ /\ _ => split end; intros; apply H.
Qed.

Lemma crud_releases_client_witness :
  let d : driver := fun c =>
    if is_call "client" "query" c then Throw (Error "relation does not exist")
    else Return VUndefined in
  last (trace (delete d "users" (VObj [("id", VNum 1)]) VUndefined)) =
    Some (Call "client" "release" []) /\
  result (delete d "users" (VObj [("id", VNum 1)]) VUndefined) =
    Throw (DatabaseError "Delete failed: relation does not exist").
Proof.
  intros d.
  pose proof (crud_releases_client Json.scalars (fun v => v) d [] VUndefined
                eq_refl) as (_ & _ & Hdelete & _).
  split; [exact (proj1 (Hdelete "users" (VObj [("id", VNum 1)]) VUndefined))|].
  by vm_compute.
Defined.

Lemma destructure_not_null options :
  options <> VNull ->
  exists o, (forall property, destructure property options = Return o) /\
            forall k, get o k = get options k.
Proof.
  intros H. destruct options; try done; eexists; split; try done.
Qed.

(** X16. A predicate with an operator that CockroachDBAdapter does not
    have never reaches the database: [find] and [delete] take the client,
    send no statement, release the client and throw a [DatabaseError]
    that names the operator. *)
Theorem unknown_operator_sends_nothing
    d tableName query entries options operator client released :
  d (Call "pool" "connect" []) = Return client ->
  d (Call "client" "release" []) = Return released ->
  options <> VNull ->
  Object_entries query = Return entries ->
  first_unknown (List.map fst operators) (shape (terms_of entries))
    = Some operator ->
  find d tableName query options =
    ([Call "pool" "connect" []; Call "client" "release" []],
     Throw (DatabaseError ("Find failed: " +:+
                           ("Unknown operator: " +:+ operator)))) /\
  delete d tableName query options =
    ([Call "pool" "connect" []; Call "client" "release" []],
     Throw (DatabaseError ("Delete failed: " +:+
                           ("Unknown operator: " +:+ operator)))).
Proof.
  intros Hc Hr Hnull Hentries Hunknown.
  assert (Hwhere : _buildWhereClause query =
                   Throw (Error ("Unknown operator: " +:+ operator))).
  { rewrite (QueryProperties._buildWhereClause_spec _ _ Hentries).
    pose proof (QueryProperties.where_conditions_first_unknown
                  (shape (terms_of entries)) 1) as H.
    rewrite Hunknown in H. by rewrite H. }
  assert (Hq : or_default query (VObj []) = query)
    by (by destruct query).
  destruct (destructure_not_null _ Hnull) as (o & Ho & _).
  split; [unfold find|unfold delete];
    apply (statement_failed d _ _ client released
             (Error ("Unknown operator: " +:+ operator)) Hc Hr).
  - unfold find_statement, _buildSelectQuery. rewrite Ho, Hq. unbind.
    cbn beta iota. by rewrite Hwhere.
  - unfold delete_statement. rewrite Ho. unbind. cbn beta iota.
    by rewrite Hwhere.
Qed.

Lemma unknown_operator_sends_nothing_witness :
  let d : driver := fun _ => Return VUndefined in
  find d "users" (VObj [("name", VObj [("$regex", VStr "^a")])]) VUndefined =
    ([Call "pool" "connect" []; Call "client" "release" []],
     Throw (DatabaseError "Find failed: Unknown operator: $regex")).
Proof.
  intros d.
  exact (proj1 (unknown_operator_sends_nothing d "users"
                  (VObj [("name", VObj [("$regex", VStr "^a")])])
                  [("name", VObj [("$regex", VStr "^a")])]
                  VUndefined "$regex" VUndefined VUndefined
                  eq_refl eq_refl ltac:(discriminate) eq_refl eq_refl)).
Defined.

(** X17. A predicate without fields (the empty object, but also a number
    or a boolean) gives [delete] a statement without WHERE and without
    values: every row of the table is deleted. *)
Theorem delete_without_fields_deletes_all
    d tableName query options client released :
  d (Call "pool" "connect" []) = Return client ->
  d (Call "client" "release" []) = Return released ->
  options <> VNull ->
  Object_entries query = Return [] ->
  trace (delete d tableName query options) =
    [Call "pool" "connect" [];
     Call "client" "query"
       [VStr (indent16 +:+ "DELETE FROM " +:+ tableName +:+
              indent16 +:+
              indent16 +:+
              returning_line (or_default (get options "returning") (VStr "*"))
              +:+ indent12);
        VArr []];
     Call "client" "release" []].
Proof.
  intros Hc Hr Hnull Hentries.
  destruct (destructure_not_null _ Hnull) as (o & Ho & Hget).
  eapply statement_sent; [done|].
  unfold delete_statement, _buildWhereClause.
  rewrite Ho, Hentries. unbind. cbn beta iota. by rewrite Hget.
Qed.

Lemma delete_without_fields_deletes_all_witness :
  let d : driver := fun _ => Return (VObj [("rows", VArr [])]) in
  trace (delete d "users" (VObj []) VUndefined) =
    [Call "pool" "connect" [];
     Call "client" "query"
       [VStr (indent16 +:+ "DELETE FROM users" +:+ indent16 +:+
              indent16 +:+ "RETURNING *" +:+ indent12);
        VArr []];
     Call "client" "release" []].
Proof.
  intros d.
  exact (delete_without_fields_deletes_all d "users" (VObj []) VUndefined
           _ _ eq_refl eq_refl ltac:(discriminate) eq_refl).
Defined.

(** X18. [update] numbers the placeholders of its WHERE clause from [$1],
    whatever the SET clause binds, and binds the operands of the
    predicate after the values of the SET clause: when the SET clause
    binds a value, [$1] of the WHERE clause is that value and not the
    predicate's operand. *)
Theorem update_where_numbered_from_one
    J newDate d models tableName query update_ options
    client model entries conditions text setValues :
  d (Call "pool" "connect" []) = Return client ->
  options <> VNull ->
  _getModel models tableName = Return model ->
  Object_entries query = Return entries ->
  where_conditions (shape (terms_of entries)) 1 = Return conditions ->
  _buildSetClause J newDate update_ (prop model "schema")
    = Return (text, setValues) ->
  trace (update J newDate d models tableName query update_ options) =
    [Call "pool" "connect" [];
     Call "client" "query"
       [VStr (indent16 +:+ "UPDATE " +:+ tableName +:+
              indent16 +:+ "SET " +:+ text +:+
              indent16 +:+ where_line (String.concat " AND " conditions) +:+
              indent16 +:+
              returning_line (or_default (get options "returning") (VStr "*"))
              +:+ indent12);
        VArr (setValues ++ List.map operand (terms_of entries))];
     Call "client" "release" []].
Proof.
  intros Hc Hnull Hmodel Hentries Hwhere Hset.
  destruct (destructure_not_null _ Hnull) as (o & Ho & Hget).
  eapply statement_sent; [done|].
  unfold update_statement.
  rewrite Ho. unbind. cbn beta iota. rewrite Hmodel. cbn beta iota.
  rewrite (QueryProperties._buildWhereClause_spec _ _ Hentries), Hwhere.
  unbind. cbn beta iota. rewrite Hset. cbn beta iota. by rewrite Hget.
Qed.

Lemma update_where_numbered_from_one_witness :
  let d : driver := fun _ => Return (VObj [("rows", VArr [])]) in
  let models :=
    [("users", VObj [("schema",
                      VObj [("name", VObj [("type", VStr "string")])])])] in
  trace (update Json.scalars (fun v => v) d models "users"
           (VObj [("id", VNum 7)]) (VObj [("name", VStr "bob")]) VUndefined) =
    [Call "pool" "connect" [];
     Call "client" "query"
       [VStr (indent16 +:+ "UPDATE users" +:+
              indent16 +:+ "SET name = $1" +:+
              indent16 +:+ "WHERE id = $1" +:+
              indent16 +:+ "RETURNING *" +:+ indent12);
        VArr [VStr "bob"; VNum 7]];
     Call "client" "release" []].
Proof.
  intros d models.
  exact (update_where_numbered_from_one Json.scalars (fun v => v) d models
           "users" (VObj [("id", VNum 7)]) (VObj [("name", VStr "bob")])
           VUndefined (VObj [("rows", VArr [])])
           (VObj [("schema",
                   VObj [("name", VObj [("type", VStr "string")])])])
           [("id", VNum 7)] ["id = $1"] "name = $1" [VStr "bob"]
           eq_refl ltac:(discriminate) eq_refl eq_refl eq_refl eq_refl).
Defined.

Lemma set_loop_app J newDate schema before after s :
  set_loop J newDate schema (before ++ after) s =
    s' ← set_loop J newDate schema before s;
    set_loop J newDate schema after s'.
Proof.
  revert s. induction before as [|entry before IH]; intros s; [done|].
  simpl. unbind. destruct (set_step J newDate schema entry s); [apply IH|done].
Qed.

Lemma set_step_passed_over J newDate schema key v s :
  passed_over v = true -> set_step J newDate schema (key, v) s = Return s.
Proof.
  unfold passed_over, set_step. intros H.
  repeat (apply andb_prop in H as [H ?]).
  repeat match goal with
         | H : negb ?b = true |- _ => apply negb_true_iff in H
         end.
  destruct v; try discriminate.
  - simpl in *. by repeat match goal with H : _ = false |- _ => rewrite H end.
  - simpl typeof. simpl String.eqb. cbn [andb negb].
    by repeat match goal with H : truthy _ = false |- _ => rewrite H end.
Qed.

(** X19. [_buildSetClause] passes over an entry of the update whose
    value is an array, or an object without a truthy [$inc], [$set],
    [$push], [$pull] or [$unset]: the clause and the values are those of
    the update without the entry, and no error is raised for it. *)
Theorem buildSetClause_passes_over J newDate schema before key v after :
  passed_over v = true ->
  _buildSetClause J newDate (VObj (before ++ (key, v) :: after)) schema =
  _buildSetClause J newDate (VObj (before ++ after)) schema.
Proof.
  intros Hv. unfold _buildSetClause. simpl Object_entries.
  unbind. cbn beta iota.
  rewrite !set_loop_app. unbind.
  destruct (set_loop J newDate schema before _) as [s|e]; [|done].
  cbn [set_loop]. unbind. by rewrite (set_step_passed_over _ _ _ _ _ _ Hv).
Qed.

Lemma buildSetClause_passes_over_witness :
  _buildSetClause Json.scalars (fun v => v)
    (VObj [("tags", VArr [VStr "a"; VStr "b"])]) VUndefined =
  Return ("", []) /\
  _buildSetClause Json.scalars (fun v => v)
    (VObj [("visits", VObj [("$set", VNum 0)])]) VUndefined =
  Return ("", []).
Proof.
  split.
  - exact (buildSetClause_passes_over Json.scalars (fun v => v) VUndefined
             [] "tags" (VArr [VStr "a"; VStr "b"]) [] eq_refl).
  - exact (buildSetClause_passes_over Json.scalars (fun v => v) VUndefined
             [] "visits" (VObj [("$set", VNum 0)]) [] eq_refl).
Defined.

Lemma row_placeholders_seq columnCount paramCount :
  row_placeholders columnCount paramCount =
    (List.map placeholder (seq paramCount columnCount),
     (paramCount + columnCount)%nat).
Proof.
  revert paramCount.
  induction columnCount as [|j IH]; intros paramCount; simpl.
  - by rewrite Nat.add_0_r.
  - rewrite IH. by rewrite Nat.add_succ_r.
Qed.

Lemma value_rows_seq rowCount columnCount paramCount :
  value_rows rowCount columnCount paramCount =
    List.map
      (fun i => "(" +:+
                String.concat ", "
                  (List.map placeholder
                     (seq (paramCount + i * columnCount) columnCount)) +:+
                ")")
      (seq 0 rowCount).
Proof.
  revert paramCount.
  induction rowCount as [|i IH]; intros paramCount; [done|].
  cbn [value_rows]. rewrite row_placeholders_seq, IH.
  cbn [seq List.map]. rewrite Nat.mul_0_l, Nat.add_0_r. f_equal.
  rewrite <- seq_shift, List.map_map. apply List.map_ext. intros k.
  by replace (paramCount + S k * columnCount)%nat
    with (paramCount + columnCount + k * columnCount)%nat by lia.
Qed.

(** X20. [_buildValuePlaceholders] writes one parenthesised row for each
    record, and numbers the placeholders through the rows without a gap:
    the row [i] (from 0) holds [$(1 + i * columnCount)] up to
    [$((i + 1) * columnCount)]. *)
Theorem buildValuePlaceholders_numbering rowCount columnCount :
  _buildValuePlaceholders rowCount columnCount =
    String.concat ", "
      (List.map
         (fun i => "(" +:+
                   String.concat ", "
                     (List.map placeholder
                        (seq (1 + i * columnCount) columnCount)) +:+
                   ")")
         (seq 0 rowCount)).
Proof. unfold _buildValuePlaceholders. by rewrite value_rows_seq. Qed.







(** X22. [insert] of an empty array sends nothing: it takes the client,
    releases it and returns an empty array, whether or not the table has a
    model. *)
Theorem insert_no_record
    J newDate d models tableName options client released :
  d (Call "pool" "connect" []) = Return client ->
  d (Call "client" "release" []) = Return released ->
  options <> VNull ->
  insert J newDate d models tableName (VArr []) options =
    ([Call "pool" "connect" []; Call "client" "release" []],
     Return (VArr [])).
Proof.
  intros Hc Hr Hnull.
  destruct (destructure_not_null _ Hnull) as (o & Ho & _).
  unfold insert. rewrite (with_client_run _ _ _ _ Hc), Hr.
  unfold insert_statement. rewrite Ho. done.
Qed.

Lemma insert_no_record_witness :
  let d : driver := fun _ => Return VUndefined in
  insert Json.scalars (fun v => v) d [] "users" (VArr []) VUndefined =
    ([Call "pool" "connect" []; Call "client" "release" []],
     Return (VArr [])).
Proof.
  intros d.
  exact (insert_no_record Json.scalars (fun v => v) d [] "users" VUndefined
           VUndefined VUndefined eq_refl eq_refl ltac:(discriminate)).
Defined.

End CockroachProperties.

(** * The update operations of the Arango adapter *)

Module ArangoUpdateProperties.
Import Members ArangoAdapter ArangoUpdate.

Lemma update_loop_app before after operations :
  update_loop (before ++ after) operations =
    update_loop after (update_loop before operations).
Proof.
  revert operations.
  induction before as [|entry before IH]; intros operations; [done|].
  simpl. apply IH.
Qed.

Lemma update_step_first key operator operand others operations :
  update_step (key, VObj ((operator, operand) :: others)) operations =
  update_step (key, VObj [(operator, operand)]) operations.
Proof.
  unfold update_step, first_operator. simpl. by rewrite String.eqb_refl.
Qed.

(** X23. Of an object under a field of the update,
    [_buildUpdateOperations] reads the first operator alone: the
    operators after it change nothing, whatever they are. *)
Theorem buildUpdateOperations_first_operator
    before key operator operand others after :
  _buildUpdateOperations
    (VObj (before ++ (key, VObj ((operator, operand) :: others)) :: after)) =
  _buildUpdateOperations
    (VObj (before ++ (key, VObj [(operator, operand)]) :: after)).
Proof.
  unfold _buildUpdateOperations. simpl Object_entries.
  unfold mbind, completion_bind. rewrite !update_loop_app.
  cbn [update_loop]. by rewrite update_step_first.
Qed.

Lemma update_step_passed_over key v operations :
  passed_over v = true -> update_step (key, v) operations = operations.
Proof.
  unfold passed_over, update_step. intros H.
  apply andb_prop in H as [-> H].
  destruct (first_operator v) as [[operator|] operand]; [|done].
  simpl in H. apply negb_true_iff in H.
  repeat (apply orb_false_elim in H as [-> H]). done.
Qed.

(** X24. [_buildUpdateOperations] passes over a field of the update whose
    value is an object that has no key, or whose first key is none of
    [$set], [$unset], [$inc], [$push] and [$pull] (an array with elements
    among them, its first key being [0]): the operations are those of the
    update without the field, and no error is raised for it. *)
Theorem buildUpdateOperations_passes_over before key v after :
  passed_over v = true ->
  _buildUpdateOperations (VObj (before ++ (key, v) :: after)) =
  _buildUpdateOperations (VObj (before ++ after)).
Proof.
  intros Hv. unfold _buildUpdateOperations. simpl Object_entries.
  unfold mbind, completion_bind. rewrite !update_loop_app.
  cbn [update_loop]. by rewrite (update_step_passed_over _ _ _ Hv).
Qed.

Lemma buildUpdateOperations_passes_over_witness :
  _buildUpdateOperations
    (VObj [("name", VStr "ann");
           ("tags", VArr [VStr "a"]);
           ("visits", VObj [("$mul", VNum 2); ("$set", VNum 1)])]) =
  Return [("name", Plain (VStr "ann"))].
Proof.
  exact (eq_trans
           (buildUpdateOperations_passes_over
              [("name", VStr "ann")] "tags" (VArr [VStr "a"])
              [("visits", VObj [("$mul", VNum 2); ("$set", VNum 1)])] eq_refl)
           (buildUpdateOperations_passes_over
              [("name", VStr "ann")] "visits"
              (VObj [("$mul", VNum 2); ("$set", VNum 1)]) [] eq_refl)).
Defined.



End ArangoUpdateProperties.

(** * The filter of the Elasticsearch adapter *)

Module ElasticsearchProperties.
Import ElasticsearchAdapter.

Lemma filter_conditions_app field before after clauses :
  filter_conditions field (before ++ after) clauses =
    filter_conditions field after (filter_conditions field before clauses).
Proof.
  revert clauses.
  induction before as [|[operator value] before IH]; intros clauses; [done|].
  simpl. apply IH.
Qed.

Lemma filter_loop_app before after clauses :
  filter_loop (before ++ after) clauses =
    clauses' ← filter_loop before clauses; filter_loop after clauses'.
Proof.
  revert clauses.
  induction before as [|[field conditions] before IH]; intros clauses;
    [done|].
  simpl. destruct (String.eqb (typeof conditions) "object"); [|apply IH].
  unfold mbind at 1 3, completion_bind.
  destruct (Object_entries conditions); [apply IH|done].
Qed.

Lemma buildFilterClause_unknown field operator value :
  ~ In operator (List.map fst (operatorMap field value)) ->
  ~ In operator Object_prototype ->
  _buildFilterClause field operator value =
  _buildFilterClause field "$eq" value.
Proof.
  intros Hmap Hproto. unfold _buildFilterClause.
  rewrite (MongoProperties.assoc_not_in_None _ _ Hmap).
  destruct (existsb (String.eqb operator) Object_prototype) eqn:E; [|done].
  apply existsb_exists in E as (name & Hin & ->%String.eqb_eq). done.
Qed.

(** X26. An operator that ElasticsearchAdapter does not have (and that
    names no member of [Object.prototype]) is read as equality: the
    filter is compiled as if [$eq] stood in its place, and nothing is
    thrown for it. *)
Theorem unknown_operator_is_equality
    before field operators operator value operators' after :
  ~ In operator (List.map fst (operatorMap field value)) ->
  ~ In operator Object_prototype ->
  _buildFilterClauses
    (VObj (before ++
           (field, VObj (operators ++ (operator, value) :: operators'))
           :: after)) =
  _buildFilterClauses
    (VObj (before ++
           (field, VObj (operators ++ ("$eq", value) :: operators'))
           :: after)).
Proof.
  intros Hmap Hproto. unfold _buildFilterClauses. simpl Object_entries.
  unfold mbind, completion_bind. rewrite !filter_loop_app.
  unfold mbind, completion_bind.
  destruct (filter_loop before []) as [clauses|e]; [|done].
  cbn [filter_loop typeof Object_entries].
  change (String.eqb "object" "object") with true. cbn iota.
  unfold mbind, completion_bind.
  rewrite !filter_conditions_app. cbn [filter_conditions].
  by rewrite (buildFilterClause_unknown _ _ _ Hmap Hproto).
Qed.

Lemma unknown_operator_is_equality_witness :
  _buildFilterClauses (VObj [("name", VObj [("$regex", VStr "^a")])]) =
  Return [Clause (term "name" (VStr "^a"))].
Proof.
  refine (unknown_operator_is_equality [] "name" [] "$regex" (VStr "^a") [] []
            _ _);
    simpl; intuition discriminate.
Defined.

Lemma filter_conditions_length field conditions clauses :
  length (filter_conditions field conditions clauses) =
    (length clauses + length conditions)%nat.
Proof.
  revert clauses.
  induction conditions as [|[operator value] conditions IH]; intros clauses;
    simpl; [lia|].
  rewrite IH, length_app. simpl. lia.
Qed.

Lemma filter_loop_null entries clauses :
  (exists field, In (field, VNull) entries) ->
  filter_loop entries clauses =
    Throw (TypeError "Cannot convert undefined or null to object").
Proof.
  revert clauses.
  induction entries as [|[field conditions] entries IH];
    intros clauses [name Hin]; [done|].
  destruct Hin as [[= -> ->]|Hin]; [done|].
  assert (Hrest : forall acc,
            filter_loop entries acc =
            Throw (TypeError "Cannot convert undefined or null to object"))
    by (intros acc; apply IH; eauto).
  destruct conditions; simpl; by rewrite ?Hrest.
Qed.

Lemma filter_loop_length entries clauses :
  (forall field, ~ In (field, VNull) entries) ->
  exists clauses',
    filter_loop entries clauses = Return clauses' /\
    length clauses' =
      (length clauses + length (Statements.terms_of entries))%nat.
Proof.
  revert clauses.
  induction entries as [|[field conditions] entries IH];
    intros clauses Hnull.
  - exists clauses. split; [done|]. simpl. lia.
  - assert (Hrest : forall acc n,
              length acc = (length clauses + n)%nat ->
              exists clauses',
                filter_loop entries acc = Return clauses' /\
                length clauses' =
                  (length clauses + (n + length (Statements.terms_of entries)))%nat).
    { intros acc n Hacc.
      destruct (IH acc) as (clauses' & -> & Hlen).
      - intros name Hin. apply (Hnull name). by right.
      - exists clauses'. split; [done|]. lia. }
    unfold Statements.terms_of. cbn [flat_map]. rewrite length_app.
    destruct conditions as [| |b|n|s|items|operators]; simpl;
      rewrite ?length_map;
      [apply (Hrest _ 1%nat)
      |exfalso; apply (Hnull field); by left
      |apply (Hrest _ 1%nat)..
      |apply (Hrest _ (length (indexed 0 items)))
      |apply (Hrest _ (length operators))];
      rewrite ?length_app, ?filter_conditions_length; simpl; lia.
Qed.

(** X27. [_buildFilterClauses] throws a [TypeError] when a field of the
    filter is null; for any other object filter it returns, with one
    clause for each operator under a field and one for each field with a
    plain value (an array gives one clause for each of its elements). *)
Theorem filter_clause_per_term entries :
  ((exists field, In (field, VNull) entries) ->
   _buildFilterClauses (VObj entries) =
     Throw (TypeError "Cannot convert undefined or null to object")) /\
  ((forall field, ~ In (field, VNull) entries) ->
   exists clauses,
     _buildFilterClauses (VObj entries) = Return clauses /\
     length clauses = length (Statements.terms_of entries)).
Proof.
  unfold _buildFilterClauses. simpl Object_entries.
  unfold mbind, completion_bind. split.
  - apply filter_loop_null.
  - intros Hnull. apply (filter_loop_length entries [] Hnull).
Qed.

End ElasticsearchProperties.
